(** * DPS150 serial protocol: frame codec, frame scanner, payload decoder

    A shallow embedding of [dps150/protocol.py] (and of the frame-draining
    part of the reader loop of [dps150/device.py]) together with the
    properties of the protocol engine.

    Conventions of the embedding:
    - a Python [int] is a [Z]; a [bytes] or [bytearray] object is a
      [list byte], so every element is in [0, 255] by typing;
    - a Python function that may raise returns a [result];
    - a function that works on a mutable object (the receive buffer, the
      dict [out] under construction) is a computation of the state and
      exception monad [M S], where [S] is the type of the object. *)

From Stdlib Require Import ZArith Lia.
From Stdlib Require Import Strings.Byte.
From stdpp Require Import base option list list_numbers strings pretty gmap.

Local Open Scope Z_scope.

(** ** Python values, exceptions and the monad of effects *)

Module Py.

(** The exceptions the modelled code can raise. *)
Inductive exn : Type :=
| IndexError    (* sequence index out of range *)
| ValueError    (* bytes([x]) with x outside range(256) *)
| StructError.  (* struct.error: buffer too small for unpack_from *)

Inductive result (A : Type) : Type :=
| Ok (a : A)
| Raise (e : exn).
Global Arguments Ok {A} a.
Global Arguments Raise {A} e.

Definition is_ok {A} (r : result A) : bool :=
  match r with Ok _ => true | Raise _ => false end.

Global Instance result_ret : MRet result := λ A a, Ok a.
Global Instance result_bind : MBind result := λ A B k r,
  match r with Ok a => k a | Raise e => Raise e end.

(** A computation on a mutable object of type [S]: it returns a value or
    raises, and leaves the object in a new state either way. *)
Definition M (S A : Type) : Type := S → result A * S.

Global Instance M_ret {S} : MRet (M S) := λ A a s, (Ok a, s).
Global Instance M_bind {S} : MBind (M S) := λ A B k m s,
  match m s with
  | (Ok a, s') => k a s'
  | (Raise e, s') => (Raise e, s')
  end.

(** A pure, possibly raising, expression evaluated inside a computation. *)
Definition lift {S A} (r : result A) : M S A := λ s, (r, s).
(** Reading the object through a pure function. *)
Definition reads {S A} (f : S → result A) : M S A := λ s, (f s, s).
(** In-place update of the object. *)
Definition modify {S} (f : S → S) : M S unit := λ s, (Ok (), f s).

(** The outcome of one pass through the body of a [for] loop: fall through
    to the next iteration ([continue] or the end of the body), or leave the
    enclosing function with [return a]. *)
Inductive ctl (A : Type) : Type :=
| Continue
| Return (a : A).
Global Arguments Continue {A}.
Global Arguments Return {A} a.

(** [for i in idxs: body] followed by [orelse] when no iteration returned. *)
Fixpoint for_in {S A} (idxs : list Z) (body : Z → M S (ctl A))
    (orelse : M S A) : M S A :=
  match idxs with
  | [] => orelse
  | i :: rest =>
      c ← body i;
      match c with
      | Continue => for_in rest body orelse
      | Return a => mret a
      end
  end.

(** [range(lo, hi)] *)
Definition range (lo hi : Z) : list Z := seqZ lo (hi - lo).

(** *** bytes and bytearray *)

(** The integer an element of a bytes object reads as. *)
Definition byte_val (b : byte) : Z := Z.of_N (Byte.to_N b).

(** [len(b)] *)
Definition len {A} (b : list A) : Z := Z.of_nat (length b).

(** [sum(b)] for a bytes object *)
Definition sum (b : list byte) : Z := foldr (λ x acc, byte_val x + acc) 0 b.

(** One element of [bytes([...])]: [ValueError] outside [range(256)]. *)
Definition to_byte (x : Z) : result byte :=
  if (0 <=? x) && (x <? 256) then
    match Byte.of_N (Z.to_N x) with
    | Some b => Ok b
    | None => Raise ValueError
    end
  else Raise ValueError.

(** [bytes(l)] for a list of ints [l] *)
Fixpoint bytes (l : list Z) : result (list byte) :=
  match l with
  | [] => Ok []
  | x :: rest => b ← to_byte x; bs ← bytes rest; Ok (b :: bs)
  end.

(** [b[i]]: a negative index counts from the end; [IndexError] when the
    index falls outside the object. *)
Definition getitem (b : list byte) (i : Z) : result Z :=
  let j := if i <? 0 then i + len b else i in
  if (0 <=? j) && (j <? len b) then
    match b !! Z.to_nat j with
    | Some x => Ok (byte_val x)
    | None => Raise IndexError
    end
  else Raise IndexError.

(** A slice bound is clipped to the object; a negative one counts from
    the end. *)
Definition clip {A} (b : list A) (i : Z) : Z :=
  if i <? 0 then Z.max 0 (i + len b) else Z.min i (len b).

(** [b[lo:hi]]: never raises. *)
Definition slice {A} (b : list A) (lo hi : Z) : list A :=
  let lo' := clip b lo in
  let hi' := clip b hi in
  take (Z.to_nat (hi' - lo')) (drop (Z.to_nat lo') b).

(** The 32-bit pattern of four bytes in little-endian order. *)
Definition u32_le (b0 b1 b2 b3 : byte) : Z :=
  Z.lor (byte_val b0)
    (Z.lor (Z.shiftl (byte_val b1) 8)
       (Z.lor (Z.shiftl (byte_val b2) 16) (Z.shiftl (byte_val b3) 24))).

(** [struct.unpack_from("<f", buffer, offset)[0]]. The float is kept as
    its IEEE-754 binary32 bit pattern. [struct.error] when fewer than four
    bytes are available at [offset] (a negative offset counts from the
    end). *)
Definition unpack_from_f32 (buffer : list byte) (offset : Z) : result Z :=
  let off := if offset <? 0 then offset + len buffer else offset in
  if (off <? 0) || (len buffer - off <? 4) then Raise StructError
  else
    match drop (Z.to_nat off) buffer with
    | b0 :: b1 :: b2 :: b3 :: _ => Ok (u32_le b0 b1 b2 b3)
    | _ => Raise StructError
    end.

End Py.
Import Py.

(** The objects stored in the dict returned by [parse_payload]. *)
Inductive value : Type :=
| VFloat (bits : Z)          (* a float, as the binary32 pattern it was unpacked from *)
| VInt (n : Z)
| VBool (b : bool)
| VStr (s : string)
| VDecoded (raw : list byte) (* raw.decode(errors="replace"), a str *)
| VBytes (raw : list byte).

(** ** Constants *)

Definition HEADER_INPUT : Z := 0xF0.
Definition HEADER_OUTPUT : Z := 0xF1.

Definition CMD_GET : Z := 0xA1.
Definition CMD_BAUD : Z := 0xB0.
Definition CMD_SET : Z := 0xB1.
Definition CMD_SESSION : Z := 0xC1.

Definition ALL : Z := 255.

Definition PROTECTION_STATES : list string :=
  ["" ; "OVP"; "OCP"; "OPP"; "OTP"; "LVP"; "REP"]%string.

(** ** Frames *)

Record Frame : Type := mkFrame {
  header : Z;
  cmd : Z;
  type_id : Z;
  payload : list byte
}.

Definition checksum (type_id : Z) (payload : list byte) : Z :=
  let c4 := len payload in
  let s := type_id + c4 + sum payload in
  Z.land s 0xFF.

Definition encode_frame (header cmd type_id : Z) (payload : list byte)
    : result (list byte) :=
  let payload_b := payload in
  let c4 := len payload_b in
  let c6 := checksum type_id payload_b in
  hd ← bytes [header; cmd; type_id; c4];
  tl ← bytes [c6];
  Ok (hd ++ payload_b ++ tl).

Definition encode_set_byte (type_id value : Z) (header : Z) : result (list byte) :=
  payload ← bytes [Z.land value 0xFF];
  encode_frame header CMD_SET type_id payload.

Definition encode_get (type_id : Z) (header : Z) : result (list byte) :=
  payload ← bytes [0];
  encode_frame header CMD_GET type_id payload.

Definition encode_session (open_session : bool) (header : Z) : result (list byte) :=
  payload ← bytes [if open_session then 1 else 0];
  encode_frame header CMD_SESSION 0 payload.

(** ** The frame scanner *)

(** The receive buffer is a [bytearray]: the scanner is a computation on it. *)
Abbreviation bytearray := (list byte).

(** [header not in (HEADER_INPUT, HEADER_OUTPUT)] is [negb (is_header header)]. *)
Definition is_header (header : Z) : bool :=
  (header =? HEADER_INPUT) || (header =? HEADER_OUTPUT).

(** The body of the [for] loop of [try_extract_frame], at index [i] of a
    buffer whose length was read as [n]. *)
Definition try_extract_frame_at (n i : Z)
    : M bytearray (ctl (option (Frame * Z))) :=
  header ← reads (λ buffer, getitem buffer i);
  if negb (is_header header) then mret Continue
  else
    cmd ← reads (λ buffer, getitem buffer (i + 1));
    type_id ← reads (λ buffer, getitem buffer (i + 2));
    c4 ← reads (λ buffer, getitem buffer (i + 3));
    let end_ := i + 4 + c4 in
    if end_ >=? n then mret (Return None)
    else
      payload ← reads (λ buffer, Ok (slice buffer (i + 4) (i + 4 + c4)));
      c6 ← reads (λ buffer, getitem buffer (i + 4 + c4));
      if negb (checksum type_id payload =? c6) then mret Continue
      else
        let frame := mkFrame header cmd type_id payload in
        let consumed := i + 5 + c4 in
        mret (Return (Some (frame, consumed))).

Definition try_extract_frame : M bytearray (option (Frame * Z)) :=
  n ← reads (λ buffer, Ok (len buffer));
  if n <? 6 then mret None
  else for_in (range 0 (n - 5)) (try_extract_frame_at n) (mret None).

(** ** The payload decoder *)

(** The dict [out]; [out[k] = v] and [out.update(k1=v1, ...)]. *)
Abbreviation dict := (gmap string value).

Definition setitem (k : string) (v : value) : M dict unit :=
  modify (λ out, <[k:=v]> out).

Definition update (kwargs : list (string * value)) : M dict unit :=
  modify (λ out, foldl (λ d kv, <[kv.1:=kv.2]> d) out kwargs).

(** [PROTECTION_STATES[idx] if idx < len(PROTECTION_STATES) else str(idx)],
    for the element [idx] of a bytes object. *)
Definition protection_label (idx : Z) : result value :=
  if idx <? len PROTECTION_STATES then
    match PROTECTION_STATES !! Z.to_nat idx with
    | Some s => Ok (VStr s)
    | None => Raise IndexError
    end
  else Ok (VStr (pretty idx)).

(** The keyword arguments of the [out.update(...)] call of the ALL block,
    in order, each with the offset its [f32] reads. *)
Definition ALL_CORE : list (string * Z) :=
  [ ("inputVoltage", 0); ("setVoltage", 4); ("setCurrent", 8);
    ("outputVoltage", 12); ("outputCurrent", 16); ("outputPower", 20);
    ("temperature", 24);
    ("group1setVoltage", 28); ("group1setCurrent", 32);
    ("group2setVoltage", 36); ("group2setCurrent", 40);
    ("group3setVoltage", 44); ("group3setCurrent", 48);
    ("group4setVoltage", 52); ("group4setCurrent", 56);
    ("group5setVoltage", 60); ("group5setCurrent", 64);
    ("group6setVoltage", 68); ("group6setCurrent", 72);
    ("overVoltageProtection", 76); ("overCurrentProtection", 80);
    ("overPowerProtection", 84); ("overTemperatureProtection", 88);
    ("lowVoltageProtection", 92) ]%string.

Section parse_payload.
Variable type_id : Z.
Variable payload : list byte.

Definition f32 (offset : Z) : M dict value :=
  lift (bits ← unpack_from_f32 payload offset; Ok (VFloat bits)).

(** [payload[i]] *)
Definition at_ (i : Z) : M dict Z := lift (getitem payload i).

(** The keyword arguments of the [out.update(...)] call of the ALL block,
    evaluated in order. *)
Definition core_kwargs : M dict (list (string * value)) :=
  mapM (λ kw, v ← f32 kw.2; mret (kw.1, v)) ALL_CORE.

(** The statements of [parse_payload] between [out = {}] and the final
    [return out]. The early [return out] of the ALL block is the [then]
    branch of its guard: nothing but the final [return out] follows the
    [if]/[elif] chain. *)
Definition parse_payload_body : M dict unit :=
  if type_id =? 192 then
    v ← f32 0; setitem "inputVoltage" v
  else if type_id =? 195 then
    v0 ← f32 0; setitem "outputVoltage" v0;;
    v4 ← f32 4; setitem "outputCurrent" v4;;
    v8 ← f32 8; setitem "outputPower" v8
  else if type_id =? 196 then
    v ← f32 0; setitem "temperature" v
  else if type_id =? 217 then
    v ← f32 0; setitem "outputCapacity" v
  else if type_id =? 218 then
    v ← f32 0; setitem "outputEnergy" v
  else if type_id =? 219 then
    b ← at_ 0; setitem "outputClosed" (VBool (b =? 1))
  else if type_id =? 220 then
    idx ← at_ 0;
    s ← lift (protection_label idx);
    setitem "protectionState" s
  else if type_id =? 221 then
    b ← at_ 0; setitem "mode" (VStr (if b =? 0 then "CC" else "CV"))
  else if type_id =? 222 then
    setitem "modelName" (VDecoded payload)
  else if type_id =? 223 then
    setitem "hardwareVersion" (VDecoded payload)
  else if type_id =? 224 then
    setitem "firmwareVersion" (VDecoded payload)
  else if type_id =? 226 then
    v ← f32 0; setitem "upperLimitVoltage" v
  else if type_id =? 227 then
    v ← f32 0; setitem "upperLimitCurrent" v
  else if type_id =? 255 then
    if len payload <? 95 then
      setitem "rawAll" (VBytes payload)
    else
      kwargs ← core_kwargs;
      update kwargs;;
      (if len payload >? 98 then
         b96 ← at_ 96; setitem "brightness" (VInt b96);;
         b97 ← at_ 97; setitem "volume" (VInt b97);;
         b98 ← at_ 98; setitem "meteringClosed" (VBool (b98 =? 0))
       else mret ());;
      (if len payload >=? 109 then
         v99 ← f32 99; setitem "outputCapacity" v99;;
         v103 ← f32 103; setitem "outputEnergy" v103;;
         b107 ← at_ 107; setitem "outputClosed" (VBool (b107 =? 1));;
         prot ← at_ 108;
         s ← lift (protection_label prot);
         setitem "protectionState" s;;
         b109 ← at_ 109;
         setitem "mode" (VStr (if b109 =? 0 then "CC" else "CV"))
       else mret ());;
      (if len payload >=? 119 then
         v111 ← f32 111; setitem "upperLimitVoltage" v111;;
         v115 ← f32 115; setitem "upperLimitCurrent" v115
       else mret ())
  else mret ().

(** [out = {}], the body, [return out]; an exception leaves no dict. *)
Definition parse_payload : result dict :=
  match parse_payload_body ∅ with
  | (Ok _, out) => Ok out
  | (Raise e, _) => Raise e
  end.
End parse_payload.

(** ** The frame-draining loop of the reader ([DPS150._reader_loop]) *)

(** The part of a [DPS150] object the loop works on: the receive buffer and,
    for the callback, the updates it was called with, latest first. *)
Record DPS150 : Type := mkDPS150 {
  _rx_buf : bytearray;
  delivered : list dict
}.

(** A computation on the receive buffer, run on [self._rx_buf]. *)
Definition on_rx_buf {A} (m : M bytearray A) : M DPS150 A := λ self,
  let '(r, buf) := m (_rx_buf self) in
  (r, mkDPS150 buf (delivered self)).

(** [del buffer[:k]] *)
Definition del_prefix (k : Z) : M bytearray unit :=
  modify (λ buffer, drop (Z.to_nat (clip buffer k)) buffer).

(** [self.callback(updates)] *)
Definition callback (updates : dict) : M DPS150 unit :=
  modify (λ self, mkDPS150 (_rx_buf self) (updates :: delivered self)).

(** One pass through the body of the [while True] loop: [Return ()] stands
    for [break]. *)
Definition drain_body : M DPS150 (ctl unit) :=
  res ← on_rx_buf try_extract_frame;
  match res with
  | None => mret (Return ())
  | Some (frame, consumed) =>
      on_rx_buf (del_prefix consumed);;
      updates ← lift (parse_payload (type_id frame) (payload frame));
      (if bool_decide (updates ≠ ∅) then callback updates else mret ());;
      mret Continue
  end.

(** The [while True] loop, for at most [fuel] iterations. *)
Fixpoint drain (fuel : nat) : M DPS150 unit :=
  match fuel with
  | O => mret ()
  | S fuel' =>
      c ← drain_body;
      match c with
      | Continue => drain fuel'
      | Return _ => mret ()
      end
  end.

(** * Properties *)

(** ** Bytes, indexing and slicing *)

Global Instance byte_inhabited : Inhabited byte := populate Byte.x00.

Lemma byte_val_range (b : byte) : 0 ≤ byte_val b ≤ 255.
Proof.
  unfold byte_val. pose proof (Byte.to_N_bounded b). lia.
Qed.

Lemma to_byte_val (b : byte) : to_byte (byte_val b) = Ok b.
Proof.
  pose proof (byte_val_range b) as Hr. unfold to_byte.
  destruct (Z.leb_spec 0 (byte_val b)); [|lia].
  destruct (Z.ltb_spec (byte_val b) 256); [|lia]. simpl.
  unfold byte_val. by rewrite N2Z.id, Byte.of_to_N.
Qed.

Lemma to_byte_Ok (x : Z) :
  0 ≤ x ≤ 255 → ∃ b, to_byte x = Ok b ∧ byte_val b = x.
Proof.
  intros Hx. unfold to_byte.
  destruct (Z.leb_spec 0 x); [|lia]. destruct (Z.ltb_spec x 256); [|lia].
  simpl. destruct (Byte.of_N (Z.to_N x)) as [b|] eqn:Hb.
  - exists b. split; [done|]. apply Byte.to_of_N in Hb.
    unfold byte_val. rewrite Hb. lia.
  - apply Byte.of_N_None_iff in Hb. lia.
Qed.

Lemma to_byte_inv (x : Z) (b : byte) : to_byte x = Ok b → byte_val b = x.
Proof.
  unfold to_byte. destruct (Z.leb_spec 0 x); [|done].
  destruct (Z.ltb_spec x 256); [|done]. simpl.
  destruct (Byte.of_N (Z.to_N x)) as [b'|] eqn:Hb; [|done].
  intros [= <-]. apply Byte.to_of_N in Hb. unfold byte_val. rewrite Hb. lia.
Qed.

Lemma len_nonneg {A} (b : list A) : 0 ≤ len b.
Proof. unfold len. lia. Qed.

Lemma len_app {A} (l k : list A) : len (l ++ k) = len l + len k.
Proof. unfold len. rewrite length_app. lia. Qed.

Lemma len_cons {A} (x : A) (l : list A) : len (x :: l) = 1 + len l.
Proof. unfold len. simpl. lia. Qed.

(** The element at a non-negative, in-range index. *)
Definition peek (buf : bytearray) (i : Z) : Z := byte_val (buf !!! Z.to_nat i).

Lemma peek_range buf i : 0 ≤ peek buf i ≤ 255.
Proof. apply byte_val_range. Qed.

Lemma getitem_peek (buf : bytearray) (i : Z) :
  0 ≤ i < len buf → getitem buf i = Ok (peek buf i).
Proof.
  intros Hi. unfold getitem, peek, len in *.
  destruct (Z.ltb_spec i 0); [lia|].
  destruct (Z.leb_spec 0 i); [|lia].
  destruct (Z.ltb_spec i (Z.of_nat (length buf))); [|lia]. simpl.
  destruct (lookup_lt_is_Some_2 buf (Z.to_nat i)) as [x Hx]; [lia|].
  rewrite Hx. by rewrite (list_lookup_total_correct _ _ _ Hx).
Qed.

Lemma getitem_out (buf : bytearray) (i : Z) :
  len buf ≤ i → getitem buf i = Raise IndexError.
Proof.
  intros Hi. pose proof (len_nonneg buf). unfold getitem.
  destruct (Z.ltb_spec i 0); [lia|].
  destruct (Z.ltb_spec i (len buf)); [lia|].
  by rewrite andb_false_r.
Qed.

Lemma slice_inside {A} (buf : list A) (lo hi : Z) :
  0 ≤ lo ≤ hi → hi ≤ len buf →
  slice buf lo hi = take (Z.to_nat (hi - lo)) (drop (Z.to_nat lo) buf).
Proof.
  intros Hlo Hhi. unfold slice, clip.
  destruct (Z.ltb_spec lo 0); [lia|]. destruct (Z.ltb_spec hi 0); [lia|].
  by rewrite !Z.min_l by lia.
Qed.

Lemma len_slice {A} (buf : list A) (lo hi : Z) :
  0 ≤ lo ≤ hi → hi ≤ len buf → len (slice buf lo hi) = hi - lo.
Proof.
  intros Hlo Hhi. rewrite slice_inside by done. unfold len in *.
  rewrite length_take, length_drop. lia.
Qed.

Lemma peek_app_r (g buf : bytearray) (i : Z) :
  0 ≤ i → peek (g ++ buf) (len g + i) = peek buf i.
Proof.
  intros Hi. unfold peek, len.
  rewrite !list_lookup_total_alt.
  replace (Z.to_nat (Z.of_nat (length g) + i)) with (length g + Z.to_nat i)%nat by lia.
  by rewrite lookup_app_r, Nat.add_sub' by lia.
Qed.

Lemma peek_app_l (g buf : bytearray) (i : Z) :
  0 ≤ i < len g → peek (g ++ buf) i = peek g i.
Proof.
  intros Hi. unfold peek, len in *.
  rewrite !list_lookup_total_alt.
  by rewrite lookup_app_l by lia.
Qed.

Lemma peek_cons_0 (b : byte) (buf : bytearray) : peek (b :: buf) 0 = byte_val b.
Proof. done. Qed.

Lemma peek_cons_S (b : byte) (buf : bytearray) (i : Z) :
  0 ≤ i → peek (b :: buf) (1 + i) = peek buf i.
Proof.
  intros Hi. unfold peek. rewrite !list_lookup_total_alt.
  replace (Z.to_nat (1 + i)) with (S (Z.to_nat i)) by lia. done.
Qed.

(** ** The checksum and the encoder *)

Lemma checksum_mod (type_id : Z) (payload : list byte) :
  checksum type_id payload = (type_id + len payload + sum payload) `mod` 256.
Proof.
  unfold checksum. change 0xFF with (Z.ones 8).
  by rewrite Z.land_ones by lia.
Qed.

Lemma checksum_range (type_id : Z) (payload : list byte) :
  0 ≤ checksum type_id payload ≤ 255.
Proof.
  rewrite checksum_mod.
  pose proof (Z.mod_pos_bound (type_id + len payload + sum payload) 256). lia.
Qed.

(** The bytes [encode_frame] produces when its four header fields fit a
    byte: the layout [[header][cmd][type_id][length][payload...][checksum]]. *)
Lemma encode_frame_Ok (header cmd type_id : Z) (payload : list byte) :
  0 ≤ header ≤ 255 → 0 ≤ cmd ≤ 255 → 0 ≤ type_id ≤ 255 → len payload ≤ 255 →
  ∃ bh bc bt bl bs,
    encode_frame header cmd type_id payload
      = Ok ([bh; bc; bt; bl] ++ payload ++ [bs])
    ∧ byte_val bh = header ∧ byte_val bc = cmd ∧ byte_val bt = type_id
    ∧ byte_val bl = len payload ∧ byte_val bs = checksum type_id payload.
Proof.
  intros Hh Hc Ht Hl. pose proof (len_nonneg payload).
  destruct (to_byte_Ok header) as (bh & Eh & ?); [done|].
  destruct (to_byte_Ok cmd) as (bc & Ec & ?); [done|].
  destruct (to_byte_Ok type_id) as (bt & Et & ?); [done|].
  destruct (to_byte_Ok (len payload)) as (bl & El & ?); [lia|].
  destruct (to_byte_Ok (checksum type_id payload)) as (bs & Es & ?);
    [apply checksum_range|].
  exists bh, bc, bt, bl, bs. unfold encode_frame. simpl.
  rewrite Eh, Ec, Et, El, Es. simpl. done.
Qed.

Lemma len_encode_frame (header cmd type_id : Z) (payload out : list byte) :
  encode_frame header cmd type_id payload = Ok out → len out = 5 + len payload.
Proof.
  unfold encode_frame. simpl.
  destruct (to_byte header); [|done]. destruct (to_byte cmd); [|done].
  destruct (to_byte type_id); [|done]. destruct (to_byte (len payload)); [|done].
  destruct (to_byte (checksum type_id payload)); [|done]. simpl.
  intros [= <-]. rewrite !len_cons, len_app, len_cons. unfold len. simpl. lia.
Qed.

(** C6. For every [type_id] in 0-255 and every payload of at most 255 bytes,
    [checksum] returns [(type_id + len(payload) + sum(payload)) mod 256], and
    [encode_frame] (given a header and a command that are bytes) returns a
    byte string whose final byte is that value. *)
Theorem checksum_formula_and_final_byte
    (header cmd type_id : Z) (payload : list byte) :
  0 ≤ header ≤ 255 → 0 ≤ cmd ≤ 255 →
  0 ≤ type_id ≤ 255 → len payload ≤ 255 →
  checksum type_id payload = (type_id + len payload + sum payload) `mod` 256
  ∧ ∃ out, encode_frame header cmd type_id payload = Ok out
           ∧ byte_val <$> last out = Some (checksum type_id payload).
Proof.
  intros Hh Hc Ht Hl. split; [apply checksum_mod|].
  destruct (encode_frame_Ok header cmd type_id payload)
    as (bh & bc & bt & bl & bs & E & _ & _ & _ & _ & Hs); [done..|].
  eexists. split; [exact E|].
  rewrite !app_assoc, last_snoc. simpl. by rewrite Hs.
Qed.

Lemma checksum_formula_and_final_byte_witness :
  checksum 0xC1 [Byte.x01; Byte.x02; Byte.x03; Byte.xff]
    = (0xC1 + 4 + 261) `mod` 256
  ∧ ∃ out, encode_frame HEADER_OUTPUT CMD_GET 0xC1
             [Byte.x01; Byte.x02; Byte.x03; Byte.xff] = Ok out
           ∧ byte_val <$> last out
             = Some (checksum 0xC1 [Byte.x01; Byte.x02; Byte.x03; Byte.xff]).
Proof.
  apply (checksum_formula_and_final_byte HEADER_OUTPUT CMD_GET 0xC1
           [Byte.x01; Byte.x02; Byte.x03; Byte.xff]);
    unfold HEADER_OUTPUT, CMD_GET, len; simpl; lia.
Defined.

(** ** Functional characterisation of the scanner *)

(** What one pass of the loop body decides at offset [i], read off the
    buffer contents. *)
Definition candidate (buf : bytearray) (i : Z) : ctl (option (Frame * Z)) :=
  if negb (is_header (peek buf i)) then Continue
  else
    let c4 := peek buf (i + 3) in
    if i + 4 + c4 >=? len buf then Return None
    else
      let p := slice buf (i + 4) (i + 4 + c4) in
      if negb (checksum (peek buf (i + 2)) p =? peek buf (i + 4 + c4))
      then Continue
      else Return (Some (mkFrame (peek buf i) (peek buf (i + 1))
                           (peek buf (i + 2)) p, i + 5 + c4)).

(** The loop over a list of offsets. *)
Fixpoint scan (buf : bytearray) (idxs : list Z) : option (Frame * Z) :=
  match idxs with
  | [] => None
  | i :: rest =>
      match candidate buf i with
      | Continue => scan buf rest
      | Return r => r
      end
  end.

Ltac run_M :=
  unfold mbind, mret, M_bind, M_ret, reads, lift, modify; cbn beta iota.

Lemma try_extract_frame_at_run (buf : bytearray) (i : Z) :
  0 ≤ i ≤ len buf - 6 →
  try_extract_frame_at (len buf) i buf = (Ok (candidate buf i), buf).
Proof.
  intros Hi. unfold try_extract_frame_at, candidate. run_M.
  rewrite !getitem_peek by lia.
  destruct (negb (is_header (peek buf i))); [done|].
  pose proof (peek_range buf (i + 3)) as Hc4.
  rewrite !getitem_peek by lia. cbn zeta.
  destruct (Z.geb_spec (i + 4 + peek buf (i + 3)) (len buf)) as [Hge|Hlt]; [done|].
  rewrite getitem_peek by lia.
  by destruct (negb _).
Qed.

Lemma for_in_scan (buf : bytearray) (idxs : list Z) :
  Forall (λ i, 0 ≤ i ≤ len buf - 6) idxs →
  for_in idxs (try_extract_frame_at (len buf)) (mret None) buf
    = (Ok (scan buf idxs), buf).
Proof.
  induction 1 as [|i rest Hi _ IH]; [done|].
  simpl. unfold mbind at 1, M_bind at 1.
  rewrite try_extract_frame_at_run by done.
  destruct (candidate buf i); [exact IH|done].
Qed.

(** The scanner returns without raising, leaves the buffer as it found it,
    and its result is the pure scan of offsets [0 .. len(buffer) - 6]. *)
Lemma try_extract_frame_run (buf : bytearray) :
  try_extract_frame buf = (Ok (scan buf (range 0 (len buf - 5))), buf).
Proof.
  unfold try_extract_frame. run_M.
  destruct (Z.ltb_spec (len buf) 6) as [Hlt|Hge].
  - unfold range. by rewrite seqZ_nil by lia.
  - apply for_in_scan. unfold range. apply Forall_seqZ. lia.
Qed.

(** The three ways a candidate offset can fare, stated on the buffer
    contents. [declared buf i] is the payload length the candidate at [i]
    declares. *)
Definition declared (buf : bytearray) (i : Z) : Z := peek buf (i + 3).

Definition checksum_ok (buf : bytearray) (i : Z) : bool :=
  checksum (peek buf (i + 2)) (slice buf (i + 4) (i + 4 + declared buf i))
    =? peek buf (i + 4 + declared buf i).

(** A complete frame with a matching checksum starts at [i]. *)
Definition accepts (buf : bytearray) (i : Z) : bool :=
  is_header (peek buf i) && (i + 4 + declared buf i <? len buf)
  && checksum_ok buf i.

(** The candidate at [i] is passed over: no header byte there, or a
    complete candidate whose checksum does not match. *)
Definition rejects (buf : bytearray) (i : Z) : bool :=
  negb (is_header (peek buf i))
  || ((i + 4 + declared buf i <? len buf) && negb (checksum_ok buf i)).

(** A header byte at [i] whose declared payload and checksum byte do not
    fit in the buffer. *)
Definition incomplete (buf : bytearray) (i : Z) : bool :=
  is_header (peek buf i) && (len buf <=? i + 4 + declared buf i).

(** The frame and consumed count read at offset [i]. *)
Definition frame_at (buf : bytearray) (i : Z) : Frame * Z :=
  (mkFrame (peek buf i) (peek buf (i + 1)) (peek buf (i + 2))
     (slice buf (i + 4) (i + 4 + declared buf i)),
   i + 5 + declared buf i).

Lemma candidate_rejects (buf : bytearray) (i : Z) :
  rejects buf i = true → candidate buf i = Continue.
Proof.
  unfold rejects, candidate, checksum_ok, declared.
  destruct (is_header (peek buf i)); simpl; [|done].
  destruct (Z.ltb_spec (i + 4 + peek buf (i + 3)) (len buf)); simpl; [|done].
  destruct (Z.geb_spec (i + 4 + peek buf (i + 3)) (len buf)); [lia|].
  by intros ->.
Qed.

Lemma candidate_incomplete (buf : bytearray) (i : Z) :
  incomplete buf i = true → candidate buf i = Return None.
Proof.
  unfold incomplete, candidate, declared.
  destruct (is_header (peek buf i)); simpl; [|done].
  destruct (Z.leb_spec (len buf) (i + 4 + peek buf (i + 3))); [|done].
  destruct (Z.geb_spec (i + 4 + peek buf (i + 3)) (len buf)); [done|lia].
Qed.

Lemma candidate_accepts (buf : bytearray) (i : Z) :
  accepts buf i = true → candidate buf i = Return (Some (frame_at buf i)).
Proof.
  unfold accepts, candidate, checksum_ok, frame_at, declared.
  destruct (is_header (peek buf i)); simpl; [|done].
  destruct (Z.ltb_spec (i + 4 + peek buf (i + 3)) (len buf)); simpl; [|done].
  destruct (Z.geb_spec (i + 4 + peek buf (i + 3)) (len buf)); [lia|].
  by intros ->.
Qed.

Lemma candidate_cases (buf : bytearray) (i : Z) :
  (rejects buf i = true ∧ candidate buf i = Continue)
  ∨ (incomplete buf i = true ∧ candidate buf i = Return None)
  ∨ (accepts buf i = true ∧ candidate buf i = Return (Some (frame_at buf i))).
Proof.
  destruct (rejects buf i) eqn:Er; [left; auto using candidate_rejects|].
  destruct (incomplete buf i) eqn:Ei;
    [right; left; auto using candidate_incomplete|].
  right; right. split; [|apply candidate_accepts].
  all: revert Er Ei; unfold rejects, incomplete, accepts;
    destruct (is_header (peek buf i)); simpl; try done;
    destruct (Z.ltb_spec (i + 4 + declared buf i) (len buf));
    destruct (Z.leb_spec (len buf) (i + 4 + declared buf i)); simpl; try done;
    try lia; by destruct (checksum_ok buf i).
Qed.

Lemma scan_app_rejects (buf : bytearray) (l1 l2 : list Z) :
  Forall (λ j, rejects buf j = true) l1 → scan buf (l1 ++ l2) = scan buf l2.
Proof.
  induction 1 as [|j l1 Hj _ IH]; [done|].
  simpl. by rewrite (candidate_rejects _ _ Hj).
Qed.

Lemma scan_app_no_accept (buf : bytearray) (l1 l2 : list Z) :
  Forall (λ j, accepts buf j = false) l1 →
  scan buf (l1 ++ l2) = None ∨ scan buf (l1 ++ l2) = scan buf l2.
Proof.
  induction 1 as [|j l1 Hj _ IH]; [by right|].
  simpl. destruct (candidate_cases buf j) as [[_ ->]|[[_ ->]|[Ha _]]];
    [done|by left|congruence].
Qed.

Lemma scan_Some_inv (buf : bytearray) (idxs : list Z) (r : Frame * Z) :
  scan buf idxs = Some r →
  ∃ i, i ∈ idxs ∧ accepts buf i = true ∧ r = frame_at buf i.
Proof.
  induction idxs as [|j rest IH]; [done|]. simpl.
  destruct (candidate_cases buf j) as [[_ ->]|[[_ ->]|[Ha ->]]].
  - intros (i & ? & ?)%IH. exists i. split; [by right|done].
  - done.
  - intros [= <-]. exists j. split; [by left|done].
Qed.

Lemma byte_val_inj (a b : byte) : byte_val a = byte_val b → a = b.
Proof.
  intros E. pose proof (to_byte_val a) as Ha. rewrite E, to_byte_val in Ha.
  congruence.
Qed.

Lemma slice_split {A} (buf : list A) (lo mid hi : Z) :
  0 ≤ lo ≤ mid → mid ≤ hi → hi ≤ len buf →
  slice buf lo hi = slice buf lo mid ++ slice buf mid hi.
Proof.
  intros. rewrite !slice_inside by lia.
  replace (Z.to_nat (hi - lo))
    with (Z.to_nat (mid - lo) + Z.to_nat (hi - mid))%nat by lia.
  rewrite <- take_take_drop, drop_drop. do 3 f_equal. lia.
Qed.

Lemma slice_one (buf : bytearray) (i : Z) :
  0 ≤ i < len buf → slice buf i (i + 1) = [buf !!! Z.to_nat i].
Proof.
  intros Hi. rewrite slice_inside by lia. unfold len in Hi.
  destruct (lookup_lt_is_Some_2 buf (Z.to_nat i)) as [x Hx]; [lia|].
  rewrite (list_lookup_total_correct _ _ _ Hx), (drop_S _ _ _ Hx).
  by replace (Z.to_nat (i + 1 - i)) with 1%nat by lia.
Qed.

(** The bytes of a candidate laid out as the encoder lays them out. *)
Lemma slice_candidate (buf : bytearray) (i c : Z) :
  0 ≤ i → 0 ≤ c → i + 5 + c ≤ len buf →
  slice buf i (i + 5 + c)
  = [buf !!! Z.to_nat i; buf !!! Z.to_nat (i + 1);
     buf !!! Z.to_nat (i + 2); buf !!! Z.to_nat (i + 3)]
    ++ slice buf (i + 4) (i + 4 + c) ++ [buf !!! Z.to_nat (i + 4 + c)].
Proof.
  intros Hi Hc Hn.
  rewrite (slice_split buf i (i + 1)) by lia.
  rewrite (slice_split buf (i + 1) (i + 2)) by lia.
  rewrite (slice_split buf (i + 2) (i + 3)) by lia.
  rewrite (slice_split buf (i + 3) (i + 4)) by lia.
  rewrite (slice_split buf (i + 4) (i + 4 + c)) by lia.
  rewrite (slice_one buf i) by lia.
  replace (i + 2) with (i + 1 + 1) at 1 by lia. rewrite slice_one by lia.
  replace (i + 3) with (i + 2 + 1) at 1 by lia. rewrite slice_one by lia.
  replace (i + 4) with (i + 3 + 1) at 1 by lia. rewrite slice_one by lia.
  replace (i + 5 + c) with (i + 4 + c + 1) by lia. rewrite slice_one by lia.
  done.
Qed.

(** ** Scanner claims *)

(** C10. [try_extract_frame] never mutates the buffer passed to it: for every
    buffer the call returns (it does not raise) and the buffer afterwards is
    the buffer before, whether or not a frame is found. The consumed bytes
    are removed by the caller: one pass of the reader's drain loop leaves
    [_rx_buf] without its first [consumed] bytes when a frame was found, and
    unchanged otherwise. *)
Theorem try_extract_frame_leaves_buffer (self : DPS150) :
  ∃ res,
    try_extract_frame (_rx_buf self) = (Ok res, _rx_buf self)
    ∧ _rx_buf (drain_body self).2
      = match res with
        | Some (_, consumed) => drop (Z.to_nat consumed) (_rx_buf self)
        | None => _rx_buf self
        end.
Proof.
  destruct self as [buf log]. simpl.
  exists (scan buf (range 0 (len buf - 5))).
  split; [apply try_extract_frame_run|].
  unfold drain_body, on_rx_buf. run_M. simpl.
  rewrite try_extract_frame_run.
  destruct (scan buf (range 0 (len buf - 5))) as [[frame consumed]|] eqn:Es;
    [|done].
  apply scan_Some_inv in Es as (i & Hi & Ha & [= -> ->]).
  apply elem_of_seqZ in Hi. unfold accepts in Ha.
  apply andb_prop in Ha as [[_ Hlt%Z.ltb_lt]%andb_prop _].
  pose proof (peek_range buf (i + 3)). unfold declared in *.
  unfold del_prefix, clip. run_M. simpl.
  destruct (Z.ltb_spec (i + 5 + peek buf (i + 3)) 0); [lia|].
  rewrite Z.min_l by lia.
  destruct (parse_payload _ _) as [updates|e]; simpl; [|done].
  unfold callback. run_M. by case_bool_decide.
Qed.

(** What holds of an accepted candidate: the frame read at [i] re-encodes to
    the bytes of the buffer from [i] up to the consumed count. *)
Lemma accepts_encode (buf : bytearray) (i : Z) :
  0 ≤ i → accepts buf i = true →
  let '(frame, consumed) := frame_at buf i in
  is_header (header frame) = true
  ∧ len (payload frame) = declared buf i
  ∧ consumed = i + 5 + len (payload frame)
  ∧ consumed ≤ len buf
  ∧ getitem buf (consumed - 1) = Ok (checksum (type_id frame) (payload frame))
  ∧ encode_frame (header frame) (cmd frame) (type_id frame) (payload frame)
    = Ok (slice buf i consumed).
Proof.
  intros Hi Ha. unfold accepts, checksum_ok in Ha.
  apply andb_prop in Ha as [[Hh Hlt%Z.ltb_lt]%andb_prop Hck%Z.eqb_eq].
  pose proof (peek_range buf (i + 3)) as Hc. unfold frame_at. simpl.
  fold (declared buf i) in Hc.
  assert (len (slice buf (i + 4) (i + 4 + declared buf i)) = declared buf i)
    as Hlen by (rewrite len_slice; lia).
  split; [done|]. split; [done|]. split; [lia|]. split; [lia|]. split.
  { rewrite getitem_peek by lia. rewrite Hck. do 2 f_equal. lia. }
  destruct (encode_frame_Ok (peek buf i) (peek buf (i + 1)) (peek buf (i + 2))
              (slice buf (i + 4) (i + 4 + declared buf i)))
    as (bh & bc & bt & bl & bs & E & Eh & Ec & Et & El & Es);
    [apply peek_range..|lia|].
  rewrite E. f_equal.
  rewrite slice_candidate by lia.
  rewrite Hlen in El. rewrite Hck in Es. unfold declared in El.
  apply byte_val_inj in Eh, Ec, Et, El, Es. by subst.
Qed.

(** C8 (amended: the lower bound on the consumed count is 5, not 6).
    Whenever [try_extract_frame] returns a frame and a consumed count for a
    buffer: the frame's header is 0xF0 or 0xF1; the checksum byte in the
    buffer (the last consumed byte) equals [checksum] of the frame's type_id
    and payload; [5 <= consumed <= len(buffer)]; and the last
    [5 + len(payload)] bytes of the consumed prefix are exactly
    [encode_frame] of the frame's fields. *)
Theorem try_extract_frame_result_invariant
    (buf buf' : bytearray) (frame : Frame) (consumed : Z) :
  try_extract_frame buf = (Ok (Some (frame, consumed)), buf') →
  (header frame = HEADER_INPUT ∨ header frame = HEADER_OUTPUT)
  ∧ getitem buf (consumed - 1) = Ok (checksum (type_id frame) (payload frame))
  ∧ 5 ≤ consumed ≤ len buf
  ∧ encode_frame (header frame) (cmd frame) (type_id frame) (payload frame)
    = Ok (slice buf (consumed - (5 + len (payload frame))) consumed).
Proof.
  rewrite try_extract_frame_run. intros [= Es _].
  apply scan_Some_inv in Es as (i & Hi & Ha & Er).
  apply elem_of_seqZ in Hi.
  pose proof (accepts_encode buf i) as H. rewrite <- Er in H.
  destruct H as (Hh & Hl & Hc & Hn & Hck & Henc); [lia|done|].
  pose proof (len_nonneg (payload frame)).
  split; [|split; [done|split; [lia|]]].
  - unfold is_header in Hh. apply orb_prop in Hh as [?%Z.eqb_eq|?%Z.eqb_eq]; auto.
  - rewrite Henc. do 2 f_equal. lia.
Qed.

Definition empty_frame_then_byte : bytearray :=
  [Byte.xf0; Byte.xa1; Byte.x00; Byte.x00; Byte.x00; Byte.x63].

Lemma try_extract_frame_result_invariant_witness :
  (header (mkFrame 0xF0 0xA1 0 []) = HEADER_INPUT
   ∨ header (mkFrame 0xF0 0xA1 0 []) = HEADER_OUTPUT)
  ∧ getitem empty_frame_then_byte (5 - 1) = Ok (checksum 0 [])
  ∧ 5 ≤ 5 ≤ len empty_frame_then_byte
  ∧ encode_frame 0xF0 0xA1 0 []
    = Ok (slice empty_frame_then_byte (5 - (5 + len (@nil byte))) 5).
Proof.
  apply (try_extract_frame_result_invariant empty_frame_then_byte
           empty_frame_then_byte (mkFrame 0xF0 0xA1 0 []) 5).
  vm_compute. reflexivity.
Defined.

(** The claim as first stated asked for [6 <= consumed]; an empty-payload
    frame followed by one more byte is returned with a consumed count of 5. *)
Lemma consumed_can_be_five :
  ∃ frame consumed,
    try_extract_frame empty_frame_then_byte
      = (Ok (Some (frame, consumed)), empty_frame_then_byte)
    ∧ ¬ (6 ≤ consumed).
Proof.
  exists (mkFrame 0xF0 0xA1 0 []), 5. split; [by vm_compute|lia].
Qed.

Lemma peek_middle (l1 l2 : bytearray) (x : byte) (i : Z) :
  i = len l1 → peek (l1 ++ x :: l2) i = byte_val x.
Proof.
  intros ->. unfold peek, len.
  by rewrite Nat2Z.id, list_lookup_total_alt, list_lookup_middle.
Qed.

Lemma slice_middle {A} (l1 l2 l3 : list A) (lo hi : Z) :
  lo = len l1 → hi = len l1 + len l2 → slice (l1 ++ l2 ++ l3) lo hi = l2.
Proof.
  intros -> ->. pose proof (len_nonneg l1). pose proof (len_nonneg l2).
  rewrite slice_inside by (rewrite ?len_app; pose proof (len_nonneg l3); lia).
  unfold len. rewrite Nat2Z.id, drop_app_length.
  replace (Z.to_nat _) with (length l2) by lia.
  by rewrite take_app_length.
Qed.

(** Where the fields of an encoded frame sit in a buffer that holds it
    after [g] and before [rest]. *)
Lemma encoded_layout (g rest payload : bytearray) (bh bc bt bl bs : byte) :
  let buf := g ++ ([bh; bc; bt; bl] ++ payload ++ [bs]) ++ rest in
  peek buf (len g) = byte_val bh
  ∧ peek buf (len g + 1) = byte_val bc
  ∧ peek buf (len g + 2) = byte_val bt
  ∧ peek buf (len g + 3) = byte_val bl
  ∧ slice buf (len g + 4) (len g + 4 + len payload) = payload
  ∧ peek buf (len g + 4 + len payload) = byte_val bs
  ∧ len buf = len g + 5 + len payload + len rest.
Proof.
  intros buf. subst buf. repeat split.
  - by apply peek_middle.
  - replace (g ++ _) with ((g ++ [bh]) ++ bc :: [bt; bl] ++ (payload ++ [bs]) ++ rest)
      by (by rewrite <- !app_assoc).
    apply peek_middle. rewrite len_app. done.
  - replace (g ++ _) with ((g ++ [bh; bc]) ++ bt :: [bl] ++ (payload ++ [bs]) ++ rest)
      by (by rewrite <- !app_assoc).
    apply peek_middle. rewrite len_app. done.
  - replace (g ++ _) with ((g ++ [bh; bc; bt]) ++ bl :: (payload ++ [bs]) ++ rest)
      by (by rewrite <- !app_assoc).
    apply peek_middle. rewrite len_app. done.
  - replace (g ++ _) with ((g ++ [bh; bc; bt; bl]) ++ payload ++ [bs] ++ rest)
      by (by rewrite <- !app_assoc).
    apply slice_middle; rewrite len_app; unfold len; simpl; lia.
  - replace (g ++ _) with ((g ++ [bh; bc; bt; bl] ++ payload) ++ bs :: rest)
      by (by rewrite <- !app_assoc).
    apply peek_middle. rewrite !len_app. unfold len; simpl; lia.
  - rewrite !len_app. unfold len; simpl. lia.
Qed.

Lemma is_header_byte (header : Z) : is_header header = true → 0 ≤ header ≤ 255.
Proof.
  unfold is_header, HEADER_INPUT, HEADER_OUTPUT.
  intros [?%Z.eqb_eq|?%Z.eqb_eq]%orb_prop; lia.
Qed.

(** An encoded frame sitting in a buffer is accepted at its offset and read
    back as the fields it was encoded from. *)
Lemma accepts_encoded (g fb rest : bytearray) (header cmd type_id : Z)
    (payload : list byte) :
  is_header header = true → 0 ≤ cmd ≤ 255 → 0 ≤ type_id ≤ 255 →
  len payload ≤ 255 →
  encode_frame header cmd type_id payload = Ok fb →
  accepts (g ++ fb ++ rest) (len g) = true
  ∧ frame_at (g ++ fb ++ rest) (len g)
    = (mkFrame header cmd type_id payload, len g + 5 + len payload)
  ∧ len (g ++ fb ++ rest) = len g + 5 + len payload + len rest.
Proof.
  intros Hh Hc Ht Hl E. pose proof (is_header_byte _ Hh).
  destruct (encode_frame_Ok header cmd type_id payload)
    as (bh & bc & bt & bl & bs & E' & Eh & Ec & Et & El & Es); [done..|].
  assert (fb = [bh; bc; bt; bl] ++ payload ++ [bs]) as -> by congruence.
  destruct (encoded_layout g rest payload bh bc bt bl bs)
    as (P0 & P1 & P2 & P3 & Ps & P5 & Pn).
  pose proof (len_nonneg rest).
  unfold accepts, frame_at, checksum_ok, declared.
  rewrite P0, P1, P2, P3, Pn, Eh, Ec, Et, El, Ps, P5, Es, Hh.
  split; [|split; [done|lia]].
  simpl. rewrite Z.eqb_refl, andb_true_r. apply Z.ltb_lt. lia.
Qed.

(** The round trip at given encoder inputs: the encoder returns a byte
    string of [5 + len(payload)] bytes, and scanning it returns the frame
    with those fields and a consumed count equal to that length. *)
Definition round_trips (header cmd type_id : Z) (payload : list byte) : Prop :=
  ∃ fb,
    encode_frame header cmd type_id payload = Ok fb
    ∧ len fb = 5 + len payload
    ∧ try_extract_frame fb
      = (Ok (Some (mkFrame header cmd type_id payload, 5 + len payload)), fb).

(** C3 (amended: the payload has between 1 and 255 bytes). For every header
    in {0xF0, 0xF1}, every command byte, every type_id in 0-255 and every
    payload of 1-255 bytes, scanning the output of [encode_frame] with
    [try_extract_frame] returns a frame with the encoder's header, cmd,
    type_id and payload, and a consumed count equal to the encoded length
    [5 + len(payload)]. *)
Theorem encode_then_scan_round_trip
    (header cmd type_id : Z) (payload : list byte) :
  header = HEADER_INPUT ∨ header = HEADER_OUTPUT →
  0 ≤ cmd ≤ 255 → 0 ≤ type_id ≤ 255 →
  1 ≤ len payload ≤ 255 →
  round_trips header cmd type_id payload.
Proof.
  intros Hh Hc Ht Hl.
  assert (is_header header = true) as Hh'.
  { unfold is_header. destruct Hh as [-> | ->]; by rewrite Z.eqb_refl, ?orb_true_r. }
  pose proof (is_header_byte _ Hh').
  destruct (encode_frame_Ok header cmd type_id payload)
    as (bh & bc & bt & bl & bs & E & _); [done..|lia|].
  revert E. generalize ([bh; bc; bt; bl] ++ payload ++ [bs]). intros fb E.
  exists fb. split; [exact E|].
  destruct (accepts_encoded [] fb [] header cmd type_id payload Hh' Hc Ht
              ltac:(lia) E) as (Ha & Hf & Hn).
  rewrite app_nil_l, app_nil_r in Ha, Hf, Hn.
  change (len (@nil byte)) with 0 in *.
  split; [lia|].
  rewrite try_extract_frame_run. do 2 f_equal.
  unfold range. rewrite seqZ_cons by lia. simpl.
  by rewrite (candidate_accepts _ _ Ha), Hf.
Qed.

Lemma encode_then_scan_round_trip_witness :
  round_trips HEADER_INPUT 0xA1 0x55 [Byte.x10; Byte.x20].
Proof.
  apply encode_then_scan_round_trip;
    unfold HEADER_INPUT, len; simpl; auto with lia.
Defined.

(** The frame with an empty payload encodes to five bytes, and the scanner
    wants six before it looks at any offset. *)
Lemma empty_payload_does_not_round_trip :
  ¬ round_trips HEADER_INPUT CMD_GET 0 [].
Proof.
  intros (fb & E & _ & Hs). vm_compute in E. injection E as <-.
  vm_compute in Hs. discriminate.
Qed.

Lemma forallb_Forall {A} (f : A → bool) (l : list A) :
  forallb f l = true → Forall (λ x, f x = true) l.
Proof.
  induction l as [|x l IH]; simpl; [constructor|].
  intros [? ?]%andb_prop. constructor; auto.
Qed.

(** C4 (amended: no complete checksum-valid frame starts before [i]). For
    every buffer, if offset [i] holds a valid header byte, the bytes from
    [i] give a declared length whose payload plus checksum byte extend past
    the end of the buffer, and no complete checksum-valid frame starts at an
    offset before [i], then [try_extract_frame] returns [None] and leaves
    the buffer whole, whatever follows offset [i] in the buffer. *)
Theorem scanner_stops_at_incomplete_candidate (buf : bytearray) (i : Z) :
  0 ≤ i → i + 3 < len buf →
  incomplete buf i = true →
  forallb (λ j, negb (accepts buf j)) (range 0 i) = true →
  try_extract_frame buf = (Ok None, buf).
Proof.
  intros Hi Hlen Hinc Hpre. rewrite try_extract_frame_run. do 2 f_equal.
  apply forallb_Forall in Hpre.
  assert (Forall (λ j, accepts buf j = false) (range 0 i)) as Hno.
  { eapply Forall_impl; [exact Hpre|]. intros j; simpl. by destruct (accepts buf j). }
  unfold range in *. rewrite Z.sub_0_r in Hno.
  destruct (Z.le_gt_cases i (len buf - 6)) as [Hin|Hout].
  - replace (len buf - 5 - 0) with (i + (len buf - 5 - i)) by lia.
    rewrite seqZ_app by lia.
    destruct (scan_app_no_accept buf (seqZ 0 i) (seqZ (0 + i) (len buf - 5 - i)) Hno)
      as [->| ->]; [done|].
    rewrite Z.add_0_l, seqZ_cons by lia. simpl.
    by rewrite (candidate_incomplete _ _ Hinc).
  - assert (Forall (λ j, accepts buf j = false) (seqZ 0 (len buf - 5 - 0))) as Hall.
    { apply Forall_seqZ. intros j Hj.
      rewrite Forall_seqZ in Hno. apply Hno. lia. }
    destruct (scan_app_no_accept buf _ [] Hall) as [E|E];
      rewrite app_nil_r in E; exact E.
Qed.

(** A candidate that declares 255 payload bytes, with a complete valid
    frame right behind it in the buffer. *)
Definition incomplete_then_frame : bytearray :=
  [Byte.xf0; Byte.x00; Byte.x00; Byte.xff;
   Byte.xf0; Byte.xa1; Byte.x00; Byte.x01; Byte.x00; Byte.x01].

Lemma scanner_stops_at_incomplete_candidate_witness :
  accepts incomplete_then_frame 4 = true
  ∧ try_extract_frame incomplete_then_frame = (Ok None, incomplete_then_frame).
Proof.
  split; [reflexivity|].
  apply (scanner_stops_at_incomplete_candidate incomplete_then_frame 0);
    [lia | unfold len; simpl; lia | reflexivity | reflexivity].
Defined.

(** A complete valid frame with an incomplete candidate behind it. *)
Definition frame_then_incomplete : bytearray :=
  [Byte.xf0; Byte.xa1; Byte.x00; Byte.x01; Byte.x00; Byte.x01;
   Byte.xf0; Byte.xa1; Byte.x00; Byte.x05; Byte.x00; Byte.x00].

(** Offset 6 holds a header byte and declares five payload bytes, which do
    not fit; the call still returns the frame that starts at offset 0. *)
Lemma incomplete_candidate_after_frame :
  0 ≤ 6 ∧ 6 + 3 < len frame_then_incomplete
  ∧ incomplete frame_then_incomplete 6 = true
  ∧ try_extract_frame frame_then_incomplete
    = (Ok (Some (mkFrame 0xF0 0xA1 0 [Byte.x00], 6)), frame_then_incomplete)
  ∧ try_extract_frame frame_then_incomplete ≠ (Ok None, frame_then_incomplete).
Proof.
  split; [lia|]. split; [unfold len; simpl; lia|]. split; [reflexivity|].
  split; [by vm_compute|]. by vm_compute.
Qed.

(** C5 (amended: the payload is not empty and the scanner passes over every
    offset of the garbage). For every buffer made of garbage bytes followed
    by a complete checksum-valid frame with a payload of 1-255 bytes, if at
    every offset of the garbage the byte is neither 0xF0 nor 0xF1, or the
    candidate frame that starts there fits in the buffer and fails its
    checksum, then a single call to [try_extract_frame] returns that frame,
    and the consumed count is the length of the garbage plus the length of
    the frame. *)
Theorem scanner_resynchronizes_past_garbage
    (g fb : bytearray) (header cmd type_id : Z) (payload : list byte) :
  header = HEADER_INPUT ∨ header = HEADER_OUTPUT →
  0 ≤ cmd ≤ 255 → 0 ≤ type_id ≤ 255 →
  1 ≤ len payload ≤ 255 →
  encode_frame header cmd type_id payload = Ok fb →
  forallb (rejects (g ++ fb)) (range 0 (len g)) = true →
  try_extract_frame (g ++ fb)
  = (Ok (Some (mkFrame header cmd type_id payload, len g + len fb)), g ++ fb).
Proof.
  intros Hh Hc Ht Hl E Hg.
  assert (is_header header = true) as Hh'.
  { unfold is_header. destruct Hh as [-> | ->]; by rewrite Z.eqb_refl, ?orb_true_r. }
  destruct (accepts_encoded g fb [] header cmd type_id payload Hh' Hc Ht
              ltac:(lia) E) as (Ha & Hf & Hn).
  rewrite app_nil_r in Ha, Hf, Hn. change (len (@nil byte)) with 0 in Hn.
  rewrite (len_encode_frame _ _ _ _ _ E).
  pose proof (len_nonneg g).
  rewrite try_extract_frame_run. do 2 f_equal.
  apply forallb_Forall in Hg. unfold range in *. rewrite Z.sub_0_r in Hg.
  replace (len (g ++ fb) - 5 - 0) with (len g + len payload) by lia.
  rewrite seqZ_app by lia. rewrite (scan_app_rejects _ _ _ Hg).
  rewrite Z.add_0_l, seqZ_cons by lia. simpl.
  rewrite (candidate_accepts _ _ Ha), Hf. do 2 f_equal. lia.
Qed.

(** The frame of the scanner tests, and a copy of it with the checksum byte
    inverted. *)
Definition good_frame : bytearray :=
  [Byte.xf0; Byte.xa1; Byte.x55; Byte.x02; Byte.x10; Byte.x20; Byte.x87].
Definition bad_frame : bytearray :=
  [Byte.xf0; Byte.xa1; Byte.x55; Byte.x02; Byte.x10; Byte.x20; Byte.x78].

Lemma scanner_resynchronizes_past_garbage_witness :
  try_extract_frame (bad_frame ++ good_frame)
  = (Ok (Some (mkFrame HEADER_INPUT 0xA1 0x55 [Byte.x10; Byte.x20],
               len bad_frame + len good_frame)), bad_frame ++ good_frame).
Proof.
  apply scanner_resynchronizes_past_garbage;
    [by left | lia | lia | unfold len; simpl; lia | reflexivity | reflexivity].
Defined.

(** An input-voltage reading of 30.0 with its checksum byte inverted,
    followed by the intact frame: the payload byte 0xF0 of the corrupted
    copy is taken for a header, the candidate there declares 240 payload
    bytes, and the scanner waits for them. *)
Definition reading_30V : list byte := [Byte.x00; Byte.x00; Byte.xf0; Byte.x41].
Definition good_reading : bytearray :=
  [Byte.xf0; Byte.xa1; Byte.xc0; Byte.x04;
   Byte.x00; Byte.x00; Byte.xf0; Byte.x41; Byte.xf5].
Definition bad_reading : bytearray :=
  [Byte.xf0; Byte.xa1; Byte.xc0; Byte.x04;
   Byte.x00; Byte.x00; Byte.xf0; Byte.x41; Byte.x0a].

Lemma corrupted_copy_blocks_frame :
  encode_frame HEADER_INPUT CMD_GET 192 reading_30V = Ok good_reading
  ∧ try_extract_frame (bad_reading ++ good_reading)
    = (Ok None, bad_reading ++ good_reading).
Proof. split; by vm_compute. Qed.

(** ** Reading the payload *)

(** The bit pattern [f32] unpacks at an offset where four bytes are
    available. *)
Definition f32_at (p : list byte) (offset : Z) : Z :=
  let n := Z.to_nat offset in
  u32_le (p !!! n) (p !!! S n) (p !!! S (S n)) (p !!! S (S (S n))).

Lemma unpack_from_f32_Ok (p : list byte) (offset : Z) :
  0 ≤ offset → offset + 4 ≤ len p →
  unpack_from_f32 p offset = Ok (f32_at p offset).
Proof.
  intros H0 Hlen. unfold unpack_from_f32, f32_at, len in *. cbv zeta.
  assert ((offset <? 0) = false) as E by lia. rewrite E; cbv iota; rewrite E.
  assert ((Z.of_nat (length p) - offset <? 4) = false) as -> by lia.
  cbn [orb].
  set (n := Z.to_nat offset).
  destruct (lookup_lt_is_Some_2 p n) as [b0 E0]; [lia|].
  destruct (lookup_lt_is_Some_2 p (S n)) as [b1 E1]; [lia|].
  destruct (lookup_lt_is_Some_2 p (S (S n))) as [b2 E2]; [lia|].
  destruct (lookup_lt_is_Some_2 p (S (S (S n)))) as [b3 E3]; [lia|].
  rewrite (drop_S _ _ _ E0), (drop_S _ _ _ E1), (drop_S _ _ _ E2),
    (drop_S _ _ _ E3).
  by rewrite (list_lookup_total_correct _ _ _ E0),
    (list_lookup_total_correct _ _ _ E1),
    (list_lookup_total_correct _ _ _ E2),
    (list_lookup_total_correct _ _ _ E3).
Qed.

Lemma unpack_from_f32_short (p : list byte) (offset : Z) :
  0 ≤ offset → len p < offset + 4 →
  unpack_from_f32 p offset = Raise StructError.
Proof.
  intros H0 Hlen. unfold unpack_from_f32. cbv zeta.
  assert ((offset <? 0) = false) as E by lia. rewrite E; cbv iota; rewrite E.
  by assert ((len p - offset <? 4) = true) as -> by lia.
Qed.

Lemma f32_Ok (p : list byte) (offset : Z) (out : dict) :
  0 ≤ offset → offset + 4 ≤ len p →
  f32 p offset out = (Ok (VFloat (f32_at p offset)), out).
Proof.
  intros. unfold f32, lift. by rewrite unpack_from_f32_Ok.
Qed.

Lemma f32_short (p : list byte) (offset : Z) (out : dict) :
  0 ≤ offset → len p < offset + 4 →
  f32 p offset out = (Raise StructError, out).
Proof.
  intros. unfold f32, lift. by rewrite unpack_from_f32_short.
Qed.

Lemma at_Ok (p : list byte) (i : Z) (out : dict) :
  0 ≤ i < len p → at_ p i out = (Ok (peek p i), out).
Proof. intros. unfold at_, lift. by rewrite getitem_peek. Qed.

Lemma at_out (p : list byte) (i : Z) (out : dict) :
  len p ≤ i → at_ p i out = (Raise IndexError, out).
Proof. intros. unfold at_, lift. by rewrite getitem_out. Qed.

(** The label of a protection code read from a payload byte. *)
Definition protection_name (idx : Z) : string :=
  if idx <? 7 then PROTECTION_STATES !!! Z.to_nat idx else pretty idx.

Lemma protection_label_Ok (idx : Z) :
  0 ≤ idx → protection_label idx = Ok (VStr (protection_name idx)).
Proof.
  intros Hidx. unfold protection_label, protection_name.
  change (len PROTECTION_STATES) with 7.
  destruct (Z.ltb_spec idx 7); [|done].
  destruct (lookup_lt_is_Some_2 PROTECTION_STATES (Z.to_nat idx)) as [s Hs];
    [simpl; lia|].
  by rewrite Hs, (list_lookup_total_correct _ _ _ Hs).
Qed.

Example protection_name_OVP : protection_name 1 = "OVP"%string.
Proof. reflexivity. Qed.

Example protection_name_out_of_table : protection_name 9 = "9"%string.
Proof. reflexivity. Qed.

(** ** Decoder claims *)

(** The register identifiers the [if]/[elif] chain of [parse_payload]
    tests for. *)
Definition HANDLED : list Z :=
  [192; 195; 196; 217; 218; 219; 220; 221; 222; 223; 224; 226; 227; 255].

(** C7. For every type_id that is not one of the register identifiers
    handled by the decoder (192, 195, 196, 217-224, 226, 227, 255) and every
    payload, [parse_payload] returns an empty dict and does not raise. *)
Theorem parse_payload_unknown_type_id (type_id : Z) (payload : list byte) :
  type_id ∉ HANDLED → parse_payload type_id payload = Ok ∅.
Proof.
  unfold HANDLED. rewrite !not_elem_of_cons. intros H.
  unfold parse_payload, parse_payload_body.
  repeat match goal with
  | |- context [?a =? ?b] => destruct (Z.eqb_spec a b); [lia|]
  end.
  done.
Qed.

Lemma parse_payload_unknown_type_id_witness :
  parse_payload 193 [Byte.x00; Byte.x00; Byte.x48; Byte.x41] = Ok ∅.
Proof.
  apply parse_payload_unknown_type_id. unfold HANDLED.
  rewrite !not_elem_of_cons. repeat split; try lia. apply not_elem_of_nil.
Defined.

(** The payload width of each scalar register: a float, the bundle of three
    floats, a byte or enumeration. *)
Definition scalar_width (type_id : Z) : option Z :=
  if bool_decide (type_id ∈ [192; 196; 217; 218; 226; 227]) then Some 4
  else if bool_decide (type_id = 195) then Some 12
  else if bool_decide (type_id ∈ [219; 220; 221]) then Some 1
  else None.

Ltac run_parse :=
  unfold parse_payload, parse_payload_body; cbn [Z.eqb Pos.eqb];
  unfold mbind, mret, M_bind, M_ret, setitem, modify; cbn beta iota.

(** C9. For every scalar register, [parse_payload] succeeds exactly when the
    payload covers the register's width and raises on a shorter payload:
    float registers 192, 196, 217, 218, 226, 227 need 4 bytes, the bundle
    register 195 needs 12, the byte and enumeration registers 219, 220, 221
    need 1. A short payload raises [struct.error] for the float registers
    and [IndexError] for the byte registers; no fallback dict is returned. *)
Theorem parse_payload_scalar_width
    (type_id width : Z) (payload : list byte) :
  scalar_width type_id = Some width →
  (width ≤ len payload →
     ∃ out, parse_payload type_id payload = Ok out ∧ out ≠ ∅)
  ∧ (len payload < width →
     parse_payload type_id payload
     = Raise (if bool_decide (width = 1) then IndexError else StructError)).
Proof.
  pose proof (len_nonneg payload) as Hn. unfold scalar_width.
  destruct (bool_decide (type_id ∈ [192; 196; 217; 218; 226; 227])) eqn:E4;
    [|destruct (bool_decide (type_id = 195)) eqn:E12;
      [|destruct (bool_decide (type_id ∈ [219; 220; 221])) eqn:E1;
        [|discriminate]]];
    intros [= <-].
  - apply bool_decide_eq_true in E4.
    repeat match goal with
    | H : _ ∈ _ :: _ |- _ => apply elem_of_cons in H as [-> | H]
    | H : _ ∈ [] |- _ => by apply elem_of_nil in H
    end.
    all: split; intros Hlen; run_parse;
      [eexists; split; [by rewrite f32_Ok by lia|apply insert_non_empty]
      |by rewrite f32_short by lia].
  - apply bool_decide_eq_true in E12 as ->. split; intros Hlen; run_parse.
    + eexists; split; [by rewrite !f32_Ok by lia|apply insert_non_empty].
    + destruct (Z.lt_ge_cases (len payload) 4);
        [by rewrite f32_short by lia|rewrite f32_Ok by lia].
      destruct (Z.lt_ge_cases (len payload) 8);
        [by rewrite f32_short by lia|rewrite f32_Ok by lia].
      by rewrite f32_short by lia.
  - apply bool_decide_eq_true in E1.
    repeat match goal with
    | H : _ ∈ _ :: _ |- _ => apply elem_of_cons in H as [-> | H]
    | H : _ ∈ [] |- _ => by apply elem_of_nil in H
    end.
    all: split; intros Hlen; run_parse;
      [eexists; split; [rewrite at_Ok by lia|apply insert_non_empty]
      |by rewrite at_out by lia].
    all: try (unfold lift; rewrite protection_label_Ok by apply peek_range).
    all: done.
Qed.

Lemma parse_payload_scalar_width_witness :
  (4 ≤ len [Byte.x00; Byte.x00; Byte.x98; Byte.x41] →
     ∃ out, parse_payload 192 [Byte.x00; Byte.x00; Byte.x98; Byte.x41] = Ok out
            ∧ out ≠ ∅)
  ∧ (len [Byte.x00; Byte.x00; Byte.x98; Byte.x41] < 4 →
     parse_payload 192 [Byte.x00; Byte.x00; Byte.x98; Byte.x41]
     = Raise (if bool_decide (4 = 1) then IndexError else StructError)).
Proof.
  apply (parse_payload_scalar_width 192 4). reflexivity.
Defined.

(** ** The ALL block *)

Lemma mapM_pure {S A B} (f : A → M S B) (g : A → B) (l : list A) (s : S) :
  Forall (λ x, f x s = (Ok (g x), s)) l → mapM f l s = (Ok (g <$> l), s).
Proof.
  induction 1 as [|x l Hx _ IH]; [done|].
  simpl. unfold mbind at 1, M_bind at 1. rewrite Hx.
  unfold mbind at 1, M_bind at 1. by rewrite IH.
Qed.

Lemma mapM_raise {S A B} (f : A → M S B) (g : A → B) (l1 l2 : list A)
    (x : A) (e : exn) (s : S) :
  Forall (λ x, f x s = (Ok (g x), s)) l1 → f x s = (Raise e, s) →
  mapM f (l1 ++ x :: l2) s = (Raise e, s).
Proof.
  intros Hl1 Hx. induction Hl1 as [|y l1 Hy _ IH]; simpl.
  - unfold mbind at 1, M_bind at 1. by rewrite Hx.
  - unfold mbind at 1, M_bind at 1. rewrite Hy.
    unfold mbind at 1, M_bind at 1. by rewrite IH.
Qed.

(** The items of the core block, as the [out.update] call receives them
    when every float is available. *)
Definition all_core (p : list byte) : list (string * value) :=
  (λ kw, (kw.1, VFloat (f32_at p kw.2))) <$> ALL_CORE.

Lemma core_offsets_fit (k : Z) :
  Forall (λ kw : string * Z, 0 ≤ kw.2 ∧ kw.2 + 4 ≤ k) ALL_CORE ↔ 96 ≤ k.
Proof.
  unfold ALL_CORE. rewrite !Forall_cons, Forall_nil. simpl. lia.
Qed.

Lemma core_kwargs_Ok (p : list byte) (out : dict) :
  96 ≤ len p →
  core_kwargs p out = (Ok (all_core p), out).
Proof.
  intros Hlen. apply mapM_pure.
  eapply Forall_impl; [by apply (core_offsets_fit (len p))|].
  intros [k off] [H0 H4]; cbn [fst snd] in *.
  unfold mbind, M_bind. by rewrite f32_Ok.
Qed.

(** With 95 bytes the last float of the core block, at offset 92, lacks
    its fourth byte. *)
Lemma core_kwargs_95 (p : list byte) (out : dict) :
  len p = 95 →
  core_kwargs p out = (Raise StructError, out).
Proof.
  intros Hlen. unfold core_kwargs.
  change ALL_CORE
    with (take 23 ALL_CORE ++ ("lowVoltageProtection"%string, 92) :: []).
  apply (mapM_raise _ (λ kw, (kw.1, VFloat (f32_at p kw.2)))).
  - cbn [take ALL_CORE]. rewrite !Forall_cons, Forall_nil.
    unfold mbind, M_bind. cbn [fst snd]. rewrite !f32_Ok by lia. done.
  - unfold mbind, M_bind. cbn [fst snd]. by rewrite f32_short by lia.
Qed.

Ltac run_all :=
  unfold parse_payload, parse_payload_body; cbn [Z.eqb Pos.eqb];
  unfold mbind, mret, M_bind, M_ret, setitem, update, modify; cbn beta iota.

(** The part of C1 the code keeps: an ALL payload shorter than 95 bytes
    decodes to the raw-bytes fallback and nothing else. *)
Lemma parse_payload_all_short (payload : list byte) :
  len payload < 95 →
  parse_payload ALL payload = Ok {[ "rawAll"%string := VBytes payload ]}.
Proof.
  intros Hlen. unfold ALL. run_all.
  by assert ((len payload <? 95) = true) as -> by lia.
Qed.

(** C1 (the claim fails on the code at 95 bytes). An ALL payload of exactly
    95 bytes passes the guard [len(payload) < 95], and [f32(92)] then raises
    [struct.error]: the 24 floats of the core block need 96 bytes. *)
Theorem parse_payload_all_95_raises (payload : list byte) :
  len payload = 95 → parse_payload ALL payload = Raise StructError.
Proof.
  intros Hlen. unfold ALL. run_all.
  assert ((len payload <? 95) = false) as -> by lia.
  by rewrite core_kwargs_95.
Qed.

Lemma parse_payload_all_95_raises_witness :
  parse_payload ALL (replicate 95 Byte.x00) = Raise StructError.
Proof. apply parse_payload_all_95_raises. reflexivity. Defined.

(** The items of the three trailing sections, and the payload length from
    which each section's byte range lies wholly inside the payload:
    bytes 96-98, bytes 99-109, bytes 111-118. *)
Definition all_flags (p : list byte) : list (string * value) :=
  [ ("brightness", VInt (peek p 96)); ("volume", VInt (peek p 97));
    ("meteringClosed", VBool (peek p 98 =? 0)%Z) ]%string.

Definition all_totals (p : list byte) : list (string * value) :=
  [ ("outputCapacity", VFloat (f32_at p 99));
    ("outputEnergy", VFloat (f32_at p 103));
    ("outputClosed", VBool (peek p 107 =? 1)%Z);
    ("protectionState", VStr (protection_name (peek p 108)));
    ("mode", VStr (if (peek p 109 =? 0)%Z then "CC" else "CV")) ]%string.

Definition all_limits (p : list byte) : list (string * value) :=
  [ ("upperLimitVoltage", VFloat (f32_at p 111));
    ("upperLimitCurrent", VFloat (f32_at p 115)) ]%string.

Definition with_items (kvs : list (string * value)) (d : dict) : dict :=
  foldl (λ d kv, <[kv.1:=kv.2]> d) d kvs.

(** The decode of an ALL payload that covers the core block, section by
    section: a trailing section is decoded when its byte range is fully
    present, and its fields are left unset otherwise. *)
Definition decode_all_sections (p : list byte) : dict :=
  let core := with_items (all_core p) ∅ in
  let flags := if 99 <=? len p then with_items (all_flags p) core else core in
  let totals :=
    if 110 <=? len p then with_items (all_totals p) flags else flags in
  if 119 <=? len p then with_items (all_limits p) totals else totals.

(** The keys a payload of [n >= 96] bytes has room for. *)
Definition present_keys (n : Z) : list string :=
  ALL_CORE.*1
  ++ (if 99 <=? n
      then ["brightness"; "volume"; "meteringClosed"]%string else [])
  ++ (if 110 <=? n
      then ["outputCapacity"; "outputEnergy"; "outputClosed";
            "protectionState"; "mode"]%string else [])
  ++ (if 119 <=? n
      then ["upperLimitVoltage"; "upperLimitCurrent"]%string else []).

Lemma dom_with_items (kvs : list (string * value)) (d : dict) :
  dom (with_items kvs d) = dom d ∪ list_to_set kvs.*1.
Proof.
  unfold with_items. revert d.
  induction kvs as [|[k v] kvs IH]; intros d; simpl.
  - by rewrite (right_id_L ∅ (∪)).
  - rewrite IH, dom_insert_L.
    by rewrite (assoc_L (∪)), (comm_L (∪) (dom d)).
Qed.

Lemma dom_decode_all_sections (p : list byte) :
  dom (decode_all_sections p) = list_to_set (present_keys (len p)).
Proof.
  unfold decode_all_sections, present_keys. cbv zeta.
  destruct (99 <=? len p), (110 <=? len p), (119 <=? len p);
    rewrite ?dom_with_items, dom_empty_L, !list_to_set_app_L;
    unfold all_core; rewrite <- list_fmap_compose;
    change ((fst ∘ _) <$> ALL_CORE) with (ALL_CORE.*1);
    simpl; set_solver.
Qed.

(** What the code does on an ALL payload of at least 96 bytes, except at
    109 bytes: it returns the section-by-section decode. *)
Lemma parse_payload_all_sections (payload : list byte) :
  96 ≤ len payload → len payload ≠ 109 →
  parse_payload ALL payload = Ok (decode_all_sections payload).
Proof.
  intros Hlen H109. unfold ALL, decode_all_sections. run_all.
  assert ((len payload <? 95) = false) as -> by lia.
  rewrite core_kwargs_Ok by lia. fold (with_items (all_core payload) ∅).
  destruct (Z.leb_spec 99 (len payload)) as [H99|H99].
  2: { assert ((len payload >? 98) = false) as -> by lia.
       assert ((len payload >=? 109) = false) as -> by lia.
       assert ((len payload >=? 119) = false) as -> by lia.
       assert ((110 <=? len payload) = false) as -> by lia.
       by assert ((119 <=? len payload) = false) as -> by lia. }
  assert ((len payload >? 98) = true) as -> by lia.
  rewrite !at_Ok by lia.
  destruct (Z.leb_spec 110 (len payload)) as [H110|H110].
  2: { assert ((len payload >=? 109) = false) as -> by lia.
       assert ((len payload >=? 119) = false) as -> by lia.
       by assert ((119 <=? len payload) = false) as -> by lia. }
  assert ((len payload >=? 109) = true) as -> by lia.
  rewrite !f32_Ok by lia. rewrite !at_Ok by lia.
  unfold lift. rewrite protection_label_Ok by apply peek_range.
  rewrite !at_Ok by lia.
  destruct (Z.leb_spec 119 (len payload)) as [H119|H119].
  2: { by assert ((len payload >=? 119) = false) as -> by lia. }
  assert ((len payload >=? 119) = true) as -> by lia.
  by rewrite !f32_Ok by lia.
Qed.

(** C2 (the claim fails on the code at 109 bytes). An ALL payload of exactly
    109 bytes passes the guard [len(payload) >= 109] of the second trailing
    section, whose last read is [payload[109]]: the decode raises
    [IndexError] instead of returning the core block and the byte flags. *)
Theorem parse_payload_all_109_raises (payload : list byte) :
  len payload = 109 → parse_payload ALL payload = Raise IndexError.
Proof.
  intros Hlen. unfold ALL. run_all.
  assert ((len payload <? 95) = false) as -> by lia.
  rewrite core_kwargs_Ok by lia.
  assert ((len payload >? 98) = true) as -> by lia.
  rewrite !at_Ok by lia.
  assert ((len payload >=? 109) = true) as -> by lia.
  rewrite !f32_Ok by lia. rewrite !at_Ok by lia.
  unfold lift. rewrite protection_label_Ok by apply peek_range.
  by rewrite at_out by lia.
Qed.

Lemma parse_payload_all_109_raises_witness :
  parse_payload ALL (replicate 109 Byte.x00) = Raise IndexError.
Proof. apply parse_payload_all_109_raises. reflexivity. Defined.


(** * Further properties of the protocol engine *)

(** ** The scanner: which frame is returned *)

Lemma scan_seqZ_Some (buf : bytearray) (k : nat) (a : Z) (r : Frame * Z) :
  scan buf (seqZ a (Z.of_nat k)) = Some r →
  ∃ i, a ≤ i < a + Z.of_nat k ∧ accepts buf i = true ∧ r = frame_at buf i
       ∧ ∀ j, a ≤ j < i → rejects buf j = true.
Proof.
  revert a. induction k as [|k IH]; intros a; [done|].
  rewrite seqZ_cons by lia. simpl.
  replace (Z.pred (Z.of_nat (S k))) with (Z.of_nat k) by lia.
  destruct (candidate_cases buf a) as [[Hr ->]|[[_ ->]|[Ha ->]]].
  - intros (i & Hi & Hacc & Hfr & Hrej)%IH. exists i.
    split; [lia|]. split; [done|]. split; [done|].
    intros j Hj. destruct (decide (j = a)) as [->|]; [done|]. apply Hrej. lia.
  - done.
  - intros [= <-]. exists a. split; [lia|]. split; [done|]. split; [done|]. lia.
Qed.

(** The frame [try_extract_frame] returns is the first one the buffer
    holds: it starts at offset [consumed - 5 - len(payload)], at most
    [len(buffer) - 6], and at every offset before it the scanner found no
    header byte or a complete candidate with a wrong checksum. *)
Theorem try_extract_frame_returns_first
    (buf buf' : bytearray) (frame : Frame) (consumed : Z) :
  try_extract_frame buf = (Ok (Some (frame, consumed)), buf') →
  let i := consumed - 5 - len (payload frame) in
  0 ≤ i ≤ len buf - 6
  ∧ accepts buf i = true
  ∧ (frame, consumed) = frame_at buf i
  ∧ ∀ j, 0 ≤ j < i → rejects buf j = true.
Proof.
  rewrite try_extract_frame_run. intros [= Es _]. unfold range in Es.
  destruct (Z.le_gt_cases (len buf - 5 - 0) 0) as [Hle|Hgt];
    [by rewrite seqZ_nil in Es|].
  rewrite <- (Z2Nat.id (len buf - 5 - 0)) in Es by lia.
  apply scan_seqZ_Some in Es as (i & Hi & Ha & Hf & Hrej).
  pose proof (accepts_encode buf i ltac:(lia) Ha) as H.
  rewrite <- Hf in H. destruct H as (_ & _ & Hc & _).
  replace (consumed - 5 - len (payload frame)) with i by lia.
  simpl. repeat split; try done; lia.
Qed.

Lemma try_extract_frame_returns_first_witness :
  let i := 14 - 5 - len [Byte.x10; Byte.x20] in
  0 ≤ i ≤ len (bad_frame ++ good_frame) - 6
  ∧ accepts (bad_frame ++ good_frame) i = true
  ∧ (mkFrame 0xF0 0xA1 0x55 [Byte.x10; Byte.x20], 14)
    = frame_at (bad_frame ++ good_frame) i
  ∧ ∀ j, 0 ≤ j < i → rejects (bad_frame ++ good_frame) j = true.
Proof.
  apply (try_extract_frame_returns_first (bad_frame ++ good_frame)
           (bad_frame ++ good_frame)
           (mkFrame 0xF0 0xA1 0x55 [Byte.x10; Byte.x20]) 14).
  by vm_compute.
Defined.

(** An encoded frame that sits in the buffer after bytes the scanner passes
    over is the one returned, whatever follows it, as long as six bytes are
    left from its first byte on. *)
Lemma scan_finds_encoded (g fb rest : bytearray) (header cmd type_id : Z)
    (payload : list byte) :
  is_header header = true → 0 ≤ cmd ≤ 255 → 0 ≤ type_id ≤ 255 →
  len payload ≤ 255 → 1 ≤ len payload + len rest →
  encode_frame header cmd type_id payload = Ok fb →
  Forall (λ j, rejects (g ++ fb ++ rest) j = true) (seqZ 0 (len g)) →
  try_extract_frame (g ++ fb ++ rest)
  = (Ok (Some (mkFrame header cmd type_id payload, len g + len fb)),
     g ++ fb ++ rest).
Proof.
  intros Hh Hc Ht Hl Hrest E Hg.
  destruct (accepts_encoded g fb rest header cmd type_id payload Hh Hc Ht Hl E)
    as (Ha & Hf & Hn).
  rewrite (len_encode_frame _ _ _ _ _ E).
  pose proof (len_nonneg g). pose proof (len_nonneg payload).
  pose proof (len_nonneg rest).
  rewrite try_extract_frame_run. do 2 f_equal. unfold range.
  replace (len (g ++ fb ++ rest) - 5 - 0)
    with (len g + (len payload + len rest)) by lia.
  rewrite seqZ_app by lia. rewrite (scan_app_rejects _ _ _ Hg).
  rewrite Z.add_0_l, seqZ_cons by lia. simpl.
  rewrite (candidate_accepts _ _ Ha), Hf. do 2 f_equal. lia.
Qed.

Lemma drop_len_app {A} (l k : list A) (n : Z) :
  n = len l → drop (Z.to_nat n) (l ++ k) = k.
Proof. intros ->. unfold len. by rewrite Nat2Z.id, drop_app_length. Qed.

(** A buffer made of bytes the scanner passes over, then an encoded frame,
    then any tail (the frame has a payload, or the tail is not empty):
    the call returns the frame, and the bytes from [consumed] on are
    exactly the tail. *)
Theorem try_extract_frame_keeps_tail
    (g fb rest : bytearray) (header cmd type_id : Z) (payload : list byte) :
  header = HEADER_INPUT ∨ header = HEADER_OUTPUT →
  0 ≤ cmd ≤ 255 → 0 ≤ type_id ≤ 255 → len payload ≤ 255 →
  1 ≤ len payload + len rest →
  encode_frame header cmd type_id payload = Ok fb →
  forallb (rejects (g ++ fb ++ rest)) (range 0 (len g)) = true →
  ∃ consumed,
    try_extract_frame (g ++ fb ++ rest)
    = (Ok (Some (mkFrame header cmd type_id payload, consumed)),
       g ++ fb ++ rest)
    ∧ consumed = len g + 5 + len payload
    ∧ drop (Z.to_nat consumed) (g ++ fb ++ rest) = rest.
Proof.
  intros Hh Hc Ht Hl Hrest E Hg.
  assert (is_header header = true) as Hh'.
  { unfold is_header. destruct Hh as [-> | ->]; by rewrite Z.eqb_refl, ?orb_true_r. }
  apply forallb_Forall in Hg. unfold range in Hg. rewrite Z.sub_0_r in Hg.
  exists (len g + len fb).
  split; [by apply scan_finds_encoded|].
  split; [rewrite (len_encode_frame _ _ _ _ _ E); lia|].
  rewrite app_assoc. apply drop_len_app. by rewrite len_app.
Qed.

Lemma try_extract_frame_keeps_tail_witness :
  ∃ consumed,
    try_extract_frame
      ([Byte.x00; Byte.x01] ++ good_frame ++ [Byte.x99; Byte.x88])
    = (Ok (Some (mkFrame HEADER_INPUT 0xA1 0x55 [Byte.x10; Byte.x20],
                 consumed)),
       [Byte.x00; Byte.x01] ++ good_frame ++ [Byte.x99; Byte.x88])
    ∧ consumed = len [Byte.x00; Byte.x01] + 5 + len [Byte.x10; Byte.x20]
    ∧ drop (Z.to_nat consumed)
        ([Byte.x00; Byte.x01] ++ good_frame ++ [Byte.x99; Byte.x88])
      = [Byte.x99; Byte.x88].
Proof.
  apply try_extract_frame_keeps_tail;
    [by left | lia | lia | unfold len; simpl; lia | unfold len; simpl; lia
    | reflexivity | reflexivity].
Defined.

Lemma rejects_no_header (buf : bytearray) (j : Z) :
  is_header (peek buf j) = false → rejects buf j = true.
Proof. unfold rejects. by intros ->. Qed.




(** A buffer without a header byte among the offsets the scanner looks at
    (0 to [len(buffer) - 6]) gives [None]; this covers every buffer of fewer
    than six bytes. *)
Theorem try_extract_frame_without_header (buf : bytearray) :
  (∀ j, 0 ≤ j ≤ len buf - 6 → is_header (peek buf j) = false) →
  try_extract_frame buf = (Ok None, buf).
Proof.
  intros Hno. rewrite try_extract_frame_run. do 2 f_equal. unfold range.
  rewrite <- (app_nil_r (seqZ _ _)). rewrite scan_app_rejects; [done|].
  apply Forall_seqZ. intros j Hj. apply rejects_no_header, Hno. lia.
Qed.

Lemma try_extract_frame_without_header_witness :
  try_extract_frame [Byte.xf0; Byte.xa1; Byte.x00; Byte.x00; Byte.x00]
  = (Ok None, [Byte.xf0; Byte.xa1; Byte.x00; Byte.x00; Byte.x00]).
Proof.
  apply try_extract_frame_without_header.
  intros j Hj. unfold len in Hj. simpl in Hj. lia.
Defined.

Lemma peek_take (buf : bytearray) (k : nat) (j : Z) :
  0 ≤ j < Z.of_nat k → peek (take k buf) j = peek buf j.
Proof.
  intros Hj. unfold peek. by rewrite lookup_total_take_lt by lia.
Qed.

Lemma truncated_frame_scan
    (fb : bytearray) (header cmd type_id : Z) (payload : list byte) (k : nat) :
  is_header header = true →
  0 ≤ cmd ≤ 255 → 0 ≤ type_id ≤ 255 → len payload ≤ 255 →
  encode_frame header cmd type_id payload = Ok fb →
  (k < length fb)%nat →
  try_extract_frame (take k fb) = (Ok None, take k fb).
Proof.
  intros Hh' Hc Ht Hl E Hk.
  pose proof (is_header_byte _ Hh').
  pose proof (len_encode_frame _ _ _ _ _ E) as Hlen.
  assert (len (take k fb) = Z.of_nat k) as Hlk.
  { unfold len. rewrite length_take. lia. }
  rewrite try_extract_frame_run. do 2 f_equal. unfold range.
  destruct (Z.lt_ge_cases (Z.of_nat k) 6) as [Hshort|Hlong].
  { by rewrite seqZ_nil by lia. }
  rewrite seqZ_cons by lia. simpl.
  rewrite candidate_incomplete; [done|].
  destruct (encode_frame_Ok header cmd type_id payload)
    as (bh & bc & bt & bl & bs & E' & Eh & _ & _ & El & _); [done..|].
  assert (fb = [bh; bc; bt; bl] ++ payload ++ [bs]) as Hfb by congruence.
  destruct (encoded_layout [] [] payload bh bc bt bl bs)
    as (P0 & _ & _ & P3 & _).
  rewrite app_nil_l, app_nil_r, <- Hfb in P0, P3.
  change (len (@nil byte)) with 0 in P0, P3.
  unfold incomplete, declared. rewrite Hlk.
  rewrite !peek_take by lia. rewrite P0, P3, Eh, El, Hh'. simpl.
  apply Z.leb_le. unfold len in *. lia.
Qed.

(** A frame cut short at any point is not mistaken for a frame: every
    proper prefix of an encoded frame makes the scanner return [None], so
    the caller keeps the bytes and waits for the rest. *)
Theorem try_extract_frame_truncated_frame
    (fb : bytearray) (header cmd type_id : Z) (payload : list byte) (k : nat) :
  header = HEADER_INPUT ∨ header = HEADER_OUTPUT →
  0 ≤ cmd ≤ 255 → 0 ≤ type_id ≤ 255 → len payload ≤ 255 →
  encode_frame header cmd type_id payload = Ok fb →
  (k < length fb)%nat →
  try_extract_frame (take k fb) = (Ok None, take k fb).
Proof.
  intros Hh Hc Ht Hl E Hk. apply (truncated_frame_scan fb header cmd type_id payload);
    try done.
  unfold is_header. destruct Hh as [-> | ->]; by rewrite Z.eqb_refl, ?orb_true_r.
Qed.

Lemma try_extract_frame_truncated_frame_witness :
  try_extract_frame (take 6 good_frame) = (Ok None, take 6 good_frame).
Proof.
  apply (try_extract_frame_truncated_frame good_frame HEADER_INPUT 0xA1 0x55
           [Byte.x10; Byte.x20] 6);
    [by left | lia | lia | unfold len; simpl; lia | reflexivity | simpl; lia].
Defined.

(** ** The encoders *)

Lemma to_byte_out (x : Z) : ¬ (0 ≤ x ≤ 255) → to_byte x = Raise ValueError.
Proof.
  intros Hx. unfold to_byte.
  destruct (Z.leb_spec 0 x); [|done].
  destruct (Z.ltb_spec x 256); [lia|done].
Qed.

Lemma to_byte_cases (x : Z) :
  (0 ≤ x ≤ 255 ∧ ∃ b, to_byte x = Ok b ∧ byte_val b = x)
  ∨ (¬ (0 ≤ x ≤ 255) ∧ to_byte x = Raise ValueError).
Proof.
  destruct (decide (0 ≤ x ≤ 255)) as [Hx|Hx].
  - left. split; [done|]. by apply to_byte_Ok.
  - right. split; [done|]. by apply to_byte_out.
Qed.

Lemma encode_frame_inv (header cmd type_id : Z) (payload out : list byte) :
  encode_frame header cmd type_id payload = Ok out →
  0 ≤ header ≤ 255 ∧ 0 ≤ cmd ≤ 255 ∧ 0 ≤ type_id ≤ 255 ∧ len payload ≤ 255.
Proof.
  unfold encode_frame. simpl.
  destruct (to_byte_cases header) as [[? _]|[_ ->]]; [|done].
  destruct (to_byte_cases cmd) as [[? _]|[_ ->]];
    [|by destruct (to_byte header)].
  destruct (to_byte_cases type_id) as [[? _]|[_ ->]];
    [|by destruct (to_byte header), (to_byte cmd)].
  destruct (to_byte_cases (len payload)) as [[? _]|[_ ->]];
    [|by destruct (to_byte header), (to_byte cmd), (to_byte type_id)].
  intros _. lia.
Qed.

Lemma encode_frame_cases (header cmd type_id : Z) (payload : list byte) :
  let fits := 0 ≤ header ≤ 255 ∧ 0 ≤ cmd ≤ 255 ∧ 0 ≤ type_id ≤ 255
              ∧ len payload ≤ 255 in
  (fits ∧ ∃ out, encode_frame header cmd type_id payload = Ok out)
  ∨ (¬ fits ∧ encode_frame header cmd type_id payload = Raise ValueError).
Proof.
  cbv zeta.
  assert (encode_frame header cmd type_id payload = Raise ValueError
          ∨ ∃ out, encode_frame header cmd type_id payload = Ok out) as Hcase.
  { unfold encode_frame. simpl.
    destruct (to_byte_cases header) as [(_ & ? & -> & _)|[_ ->]]; [|by left].
    destruct (to_byte_cases cmd) as [(_ & ? & -> & _)|[_ ->]]; [|by left].
    destruct (to_byte_cases type_id) as [(_ & ? & -> & _)|[_ ->]]; [|by left].
    destruct (to_byte_cases (len payload)) as [(_ & ? & -> & _)|[_ ->]];
      [|by left].
    destruct (to_byte_Ok (checksum type_id payload)) as (? & -> & _);
      [apply checksum_range|].
    right. by eexists. }
  destruct Hcase as [E|[out E]].
  - right. split; [|done]. intros (? & ? & ? & ?).
    destruct (encode_frame_Ok header cmd type_id payload)
      as (? & ? & ? & ? & ? & E' & _); [done..|]. congruence.
  - left. split; [by apply (encode_frame_inv _ _ _ _ out)|by exists out].
Qed.

(** [encode_frame] is not total: it returns exactly when header, cmd and
    type_id are in 0-255 and the payload has at most 255 bytes, and raises
    [ValueError] otherwise (from [bytes([header, cmd, type_id, c4])]). *)
Theorem encode_frame_returns_iff
    (header cmd type_id : Z) (payload : list byte) :
  let fits := 0 ≤ header ≤ 255 ∧ 0 ≤ cmd ≤ 255 ∧ 0 ≤ type_id ≤ 255
              ∧ len payload ≤ 255 in
  (fits ↔ is_ok (encode_frame header cmd type_id payload) = true)
  ∧ (¬ fits ↔ encode_frame header cmd type_id payload = Raise ValueError).
Proof.
  cbv zeta.
  destruct (encode_frame_cases header cmd type_id payload)
    as [[Hfits [out E]]|[Hno E]]; rewrite E; simpl.
  - split; split; done.
  - split; split; done.
Qed.

Lemma encode_frame_bytes (header cmd type_id : Z) (payload out : list byte) :
  encode_frame header cmd type_id payload = Ok out →
  ∃ bh bc bt bl bs,
    out = [bh; bc; bt; bl] ++ payload ++ [bs]
    ∧ byte_val bh = header ∧ byte_val bc = cmd ∧ byte_val bt = type_id
    ∧ byte_val bl = len payload ∧ byte_val bs = checksum type_id payload.
Proof.
  intros E. destruct (encode_frame_inv _ _ _ _ _ E) as (? & ? & ? & ?).
  destruct (encode_frame_Ok header cmd type_id payload)
    as (bh & bc & bt & bl & bs & E' & H'); [done..|].
  exists bh, bc, bt, bl, bs. split; [congruence|done].
Qed.

(** The layout of an encoded frame, read back with Python indexing:
    [out[0]], [out[1]], [out[2]] are header, cmd and type_id, [out[3]] is
    the payload length, [out[4:4+len(payload)]] is the payload, [out[-1]] is
    the checksum, and the frame has [5 + len(payload)] bytes. *)
Theorem encode_frame_layout
    (header cmd type_id : Z) (payload out : list byte) :
  encode_frame header cmd type_id payload = Ok out →
  len out = 5 + len payload
  ∧ getitem out 0 = Ok header ∧ getitem out 1 = Ok cmd
  ∧ getitem out 2 = Ok type_id ∧ getitem out 3 = Ok (len payload)
  ∧ slice out 4 (4 + len payload) = payload
  ∧ getitem out (-1) = Ok (checksum type_id payload).
Proof.
  intros E. pose proof (len_encode_frame _ _ _ _ _ E) as Hlen.
  destruct (encode_frame_bytes _ _ _ _ _ E)
    as (bh & bc & bt & bl & bs & -> & Eh & Ec & Et & El & Es).
  destruct (encoded_layout [] [] payload bh bc bt bl bs)
    as (P0 & P1 & P2 & P3 & Ps & P5 & _).
  rewrite app_nil_l, app_nil_r in P0, P1, P2, P3, Ps, P5.
  change (len (@nil byte)) with 0 in *. rewrite !Z.add_0_l in *.
  pose proof (len_nonneg payload).
  split; [done|].
  rewrite !getitem_peek by lia. rewrite P0, P1, P2, P3, Ps, Eh, Ec, Et, El.
  repeat split; try done.
  unfold getitem. cbv zeta. change (-1 <? 0) with true. cbv iota.
  rewrite Hlen.
  assert ((0 <=? -1 + (5 + len payload)) = true) as -> by lia.
  assert ((-1 + (5 + len payload) <? 5 + len payload) = true) as -> by lia.
  cbn [andb].
  replace ([bh; bc; bt; bl] ++ payload ++ [bs])
    with (([bh; bc; bt; bl] ++ payload) ++ bs :: []) by (by rewrite <- app_assoc).
  rewrite list_lookup_middle; [by rewrite Es|].
  rewrite length_app. unfold len. simpl. lia.
Qed.

Lemma encode_frame_layout_witness :
  len good_frame = 5 + len [Byte.x10; Byte.x20]
  ∧ getitem good_frame 0 = Ok HEADER_INPUT ∧ getitem good_frame 1 = Ok 0xA1
  ∧ getitem good_frame 2 = Ok 0x55
  ∧ getitem good_frame 3 = Ok (len [Byte.x10; Byte.x20])
  ∧ slice good_frame 4 (4 + len [Byte.x10; Byte.x20]) = [Byte.x10; Byte.x20]
  ∧ getitem good_frame (-1) = Ok (checksum 0x55 [Byte.x10; Byte.x20]).
Proof. apply encode_frame_layout. reflexivity. Defined.

Lemma header_is_header (header : Z) :
  header = HEADER_INPUT ∨ header = HEADER_OUTPUT → is_header header = true.
Proof.
  unfold is_header. intros [-> | ->]; by rewrite Z.eqb_refl, ?orb_true_r.
Qed.

(** What the scanner makes of a frame with a payload, alone in a buffer. *)
Lemma scan_encoded_alone (fb : bytearray) (header cmd type_id : Z)
    (payload : list byte) :
  is_header header = true → 0 ≤ cmd ≤ 255 → 0 ≤ type_id ≤ 255 →
  1 ≤ len payload ≤ 255 →
  encode_frame header cmd type_id payload = Ok fb →
  try_extract_frame fb
  = (Ok (Some (mkFrame header cmd type_id payload, len fb)), fb).
Proof.
  intros Hh Hc Ht Hl E.
  pose proof (scan_finds_encoded [] fb [] header cmd type_id payload Hh Hc Ht
                ltac:(lia)) as H.
  rewrite app_nil_l, app_nil_r in H. change (len (@nil byte)) with 0 in H.
  rewrite Z.add_0_l in H. apply H; [lia|done|].
  by rewrite seqZ_nil.
Qed.

Lemma encode_get_Ok (type_id header : Z) :
  0 ≤ type_id ≤ 255 → 0 ≤ header ≤ 255 →
  ∃ fb, encode_get type_id header = Ok fb
        ∧ encode_frame header CMD_GET type_id [Byte.x00] = Ok fb.
Proof.
  intros Ht Hh. unfold encode_get. change (bytes [0]) with (Ok [Byte.x00]).
  simpl.
  destruct (encode_frame_Ok header CMD_GET type_id [Byte.x00])
    as (? & ? & ? & ? & ? & E & _); [done|done|done|done|].
  eexists. split; exact E.
Qed.

Lemma encode_set_byte_Ok (type_id value header : Z) :
  0 ≤ type_id ≤ 255 → 0 ≤ header ≤ 255 →
  ∃ b fb, byte_val b = value `mod` 256
          ∧ encode_set_byte type_id value header = Ok fb
          ∧ encode_frame header CMD_SET type_id [b] = Ok fb.
Proof.
  intros Ht Hh. unfold encode_set_byte. change 0xFF with (Z.ones 8).
  rewrite Z.land_ones by lia. change (2 ^ 8) with 256.
  pose proof (Z.mod_pos_bound value 256 ltac:(lia)) as Hm.
  destruct (to_byte_Ok (value `mod` 256)) as (b & Eb & Hb); [lia|].
  exists b. simpl. rewrite Eb. simpl.
  destruct (encode_frame_Ok header CMD_SET type_id [b])
    as (? & ? & ? & ? & ? & E & _); [done|done|done|done|].
  eexists. split; [done|]. split; exact E.
Qed.

(** A GET request for a register in 0-255 is a six-byte frame, and the
    scanner reads it back as a GET frame for that register with payload
    [[0]]. *)
Theorem encode_get_round_trip (type_id header : Z) :
  0 ≤ type_id ≤ 255 → header = HEADER_INPUT ∨ header = HEADER_OUTPUT →
  ∃ fb,
    encode_get type_id header = Ok fb ∧ len fb = 6
    ∧ try_extract_frame fb
      = (Ok (Some (mkFrame header CMD_GET type_id [Byte.x00], 6)), fb).
Proof.
  intros Ht Hh%header_is_header. pose proof (is_header_byte _ Hh).
  destruct (encode_get_Ok type_id header) as (fb & Eg & E); [done..|].
  exists fb. split; [exact Eg|].
  pose proof (len_encode_frame _ _ _ _ _ E) as Hlen.
  change (len [Byte.x00]) with 1 in Hlen. split; [lia|].
  rewrite (scan_encoded_alone _ header CMD_GET type_id [Byte.x00]);
    [by rewrite Hlen|done|done|done|done|exact E].
Qed.

Lemma encode_get_round_trip_witness :
  ∃ fb,
    encode_get ALL HEADER_OUTPUT = Ok fb ∧ len fb = 6
    ∧ try_extract_frame fb
      = (Ok (Some (mkFrame HEADER_OUTPUT CMD_GET ALL [Byte.x00], 6)), fb).
Proof. apply encode_get_round_trip; [unfold ALL; lia|by right]. Defined.

(** [encode_set_byte] accepts any integer value: the value is reduced
    modulo 256, never refused, and the scanner reads the request back as a
    SET frame whose one payload byte is [value mod 256]. *)
Theorem encode_set_byte_truncates (type_id value header : Z) :
  0 ≤ type_id ≤ 255 → header = HEADER_INPUT ∨ header = HEADER_OUTPUT →
  ∃ b fb,
    byte_val b = value `mod` 256
    ∧ encode_set_byte type_id value header = Ok fb ∧ len fb = 6
    ∧ try_extract_frame fb
      = (Ok (Some (mkFrame header CMD_SET type_id [b], 6)), fb).
Proof.
  intros Ht Hh%header_is_header. pose proof (is_header_byte _ Hh).
  destruct (encode_set_byte_Ok type_id value header)
    as (b & fb & Hb & Es & E); [done..|].
  exists b, fb. split; [done|]. split; [exact Es|].
  pose proof (len_encode_frame _ _ _ _ _ E) as Hlen.
  change (len [b]) with 1 in Hlen. split; [lia|].
  rewrite (scan_encoded_alone _ header CMD_SET type_id [b]);
    [by rewrite Hlen|done|done|done|done|exact E].
Qed.

Lemma encode_set_byte_truncates_witness :
  ∃ b fb,
    byte_val b = 263 `mod` 256
    ∧ encode_set_byte 214 263 HEADER_OUTPUT = Ok fb ∧ len fb = 6
    ∧ try_extract_frame fb
      = (Ok (Some (mkFrame HEADER_OUTPUT CMD_SET 214 [b], 6)), fb).
Proof. apply encode_set_byte_truncates; [lia|by right]. Defined.

(** ** The decoder *)

(** An ALL payload shorter than 95 bytes, the empty one included, decodes
    to the raw-bytes fallback and nothing else: the dict has the one key
    [rawAll], bound to the payload itself, and no exception is raised. *)
Theorem parse_payload_all_fallback (payload : list byte) :
  len payload < 95 →
  parse_payload ALL payload = Ok {[ "rawAll"%string := VBytes payload ]}.
Proof. apply parse_payload_all_short. Qed.

Lemma parse_payload_all_fallback_witness :
  parse_payload ALL (replicate 20 Byte.x00)
  = Ok {[ "rawAll"%string := VBytes (replicate 20 Byte.x00) ]}.
Proof. apply parse_payload_all_fallback. unfold len. simpl. lia. Defined.

(** An ALL payload of at least 96 bytes, other than one of exactly 109
    bytes, decodes without raising to the core block plus the trailing
    sections that are wholly inside the payload (bytes 96-98, 99-109,
    111-118); the keys of the dict are exactly those of the sections
    present. *)
Theorem parse_payload_all_decodes (payload : list byte) :
  96 ≤ len payload → len payload ≠ 109 →
  parse_payload ALL payload = Ok (decode_all_sections payload)
  ∧ dom (decode_all_sections payload)
    = list_to_set (present_keys (len payload)).
Proof.
  intros. split; [by apply parse_payload_all_sections|].
  apply dom_decode_all_sections.
Qed.

Lemma parse_payload_all_decodes_witness :
  parse_payload ALL (replicate 100 Byte.x00)
  = Ok (decode_all_sections (replicate 100 Byte.x00))
  ∧ dom (decode_all_sections (replicate 100 Byte.x00))
    = list_to_set (present_keys (len (replicate 100 Byte.x00))).
Proof.
  apply parse_payload_all_decodes; unfold len; simpl; lia.
Defined.

Lemma scalar_width_cases (type_id width : Z) :
  scalar_width type_id = Some width →
  (type_id, width)
  ∈ [(192, 4); (196, 4); (217, 4); (218, 4); (226, 4); (227, 4);
     (195, 12); (219, 1); (220, 1); (221, 1)].
Proof.
  unfold scalar_width.
  destruct (bool_decide (type_id ∈ [192; 196; 217; 218; 226; 227])) eqn:E4;
    [|destruct (bool_decide (type_id = 195)) eqn:E12;
      [|destruct (bool_decide (type_id ∈ [219; 220; 221])) eqn:E1;
        [|discriminate]]];
    intros [= <-].
  - apply bool_decide_eq_true in E4.
    repeat (apply elem_of_cons in E4 as [->|E4]; [set_solver|]).
    by apply elem_of_nil in E4.
  - apply bool_decide_eq_true in E12 as ->. set_solver.
  - apply bool_decide_eq_true in E1.
    repeat (apply elem_of_cons in E1 as [->|E1]; [set_solver|]).
    by apply elem_of_nil in E1.
Qed.

Ltac scalar_cases H :=
  apply scalar_width_cases in H;
  repeat (apply elem_of_cons in H as [[= -> ->]|H]);
  [..|by apply elem_of_nil in H].

Lemma parse_scalar_is_ok (type_id width : Z) (payload : list byte) :
  scalar_width type_id = Some width →
  is_ok (parse_payload type_id payload) = bool_decide (width ≤ len payload).
Proof.
  intros Hw. pose proof (len_nonneg payload). scalar_cases Hw.
  all: case_bool_decide as Hlen; run_parse.
  all: try (by rewrite !f32_Ok by lia).
  all: try (by rewrite f32_short by lia).
  all: try (by rewrite at_out by lia).
  all: try (rewrite at_Ok by lia; unfold lift;
            rewrite ?protection_label_Ok by apply peek_range; done).
  (* the bundle of three floats, short *)
  destruct (Z.lt_ge_cases (len payload) 4);
    [by rewrite f32_short by lia|rewrite f32_Ok by lia].
  destruct (Z.lt_ge_cases (len payload) 8);
    [by rewrite f32_short by lia|rewrite f32_Ok by lia].
  by rewrite f32_short by lia.
Qed.

Lemma parse_all_is_ok (payload : list byte) :
  is_ok (parse_payload ALL payload)
  = negb (bool_decide (len payload = 95 ∨ len payload = 109)).
Proof.
  case_bool_decide as Hlen; simpl.
  - unfold ALL. run_all.
    assert ((len payload <? 95) = false) as -> by lia.
    destruct Hlen as [Hlen|Hlen]; [by rewrite core_kwargs_95|].
    rewrite core_kwargs_Ok by lia.
    assert ((len payload >? 98) = true) as -> by lia.
    rewrite !at_Ok by lia.
    assert ((len payload >=? 109) = true) as -> by lia.
    rewrite !f32_Ok by lia. rewrite !at_Ok by lia.
    unfold lift. rewrite protection_label_Ok by apply peek_range.
    by rewrite at_out by lia.
  - destruct (Z.lt_ge_cases (len payload) 95).
    + by rewrite parse_payload_all_short.
    + by rewrite parse_payload_all_sections by lia.
Qed.

Lemma parse_unhandled (type_id : Z) (payload : list byte) :
  type_id ∉ HANDLED → parse_payload type_id payload = Ok ∅.
Proof.
  unfold HANDLED. rewrite !not_elem_of_cons. intros H.
  unfold parse_payload, parse_payload_body.
  repeat match goal with
  | |- context [?a =? ?b] => destruct (Z.eqb_spec a b); [lia|]
  end.
  done.
Qed.

(** When [parse_payload] raises, and only then: a scalar register with a
    payload shorter than its width, or the ALL register with a payload of
    exactly 95 or exactly 109 bytes. Every other input, the string
    registers with any payload (the empty one included) and unknown
    identifiers among them, returns a dict. *)
Theorem parse_payload_raises_iff (type_id : Z) (payload : list byte) :
  is_ok (parse_payload type_id payload) = false
  ↔ (∃ width, scalar_width type_id = Some width ∧ len payload < width)
    ∨ (type_id = ALL ∧ (len payload = 95 ∨ len payload = 109)).
Proof.
  destruct (scalar_width type_id) as [w|] eqn:Hw.
  - rewrite (parse_scalar_is_ok _ _ _ Hw).
    assert (type_id ≠ ALL) as Hne.
    { intros ->. by vm_compute in Hw. }
    case_bool_decide as Hlen; simpl.
    + split; [done|].
      intros [(w' & Hw' & Hlt)|[? _]]; [|done].
      assert (w' = w) as -> by congruence. lia.
    + split; [|done]. intros _. left. exists w. split; [done|lia].
  - destruct (decide (type_id = ALL)) as [->|Hne].
    + rewrite parse_all_is_ok. case_bool_decide as Hlen; simpl.
      * split; [|done]. intros _. by right.
      * split; [done|]. by intros [(w & ? & _)|[_ ?]].
    + assert (is_ok (parse_payload type_id payload) = true) as ->.
      { destruct (decide (type_id ∈ HANDLED)) as [Hin|Hout].
        - unfold HANDLED in Hin.
          repeat (apply elem_of_cons in Hin as [->|Hin];
                  [try (by vm_compute in Hw); try done|]).
          by apply elem_of_nil in Hin.
        - by rewrite parse_unhandled. }
      split; [done|]. by intros [(w & ? & _)|[? _]].
Qed.

Lemma f32_at_app (p extra : list byte) (offset : Z) :
  0 ≤ offset → offset + 4 ≤ len p →
  f32_at (p ++ extra) offset = f32_at p offset.
Proof.
  intros H0 H4. unfold f32_at, len in *. cbv zeta.
  by rewrite !lookup_total_app_l by lia.
Qed.

Lemma all_core_app (p extra : list byte) :
  96 ≤ len p → all_core (p ++ extra) = all_core p.
Proof.
  intros Hlen. unfold all_core. apply Forall_fmap_ext_1.
  eapply Forall_impl; [by apply (core_offsets_fit (len p))|].
  intros [k off] [H0 H4]; cbn [fst snd] in *. by rewrite f32_at_app.
Qed.

Lemma decode_all_sections_app (p extra : list byte) :
  119 ≤ len p → decode_all_sections (p ++ extra) = decode_all_sections p.
Proof.
  intros Hlen. pose proof (len_nonneg extra).
  unfold decode_all_sections. cbv zeta. rewrite len_app.
  assert ((99 <=? len p + len extra) = true) as -> by lia.
  assert ((110 <=? len p + len extra) = true) as -> by lia.
  assert ((119 <=? len p + len extra) = true) as -> by lia.
  assert ((99 <=? len p) = true) as -> by lia.
  assert ((110 <=? len p) = true) as -> by lia.
  assert ((119 <=? len p) = true) as -> by lia.
  rewrite all_core_app by lia.
  unfold all_flags, all_totals, all_limits.
  rewrite !f32_at_app by lia. by rewrite !peek_app_l by lia.
Qed.

(** Bytes beyond what a register needs are ignored: for a scalar register
    whose width the payload covers, and for the ALL register with at least
    119 bytes, appending any bytes to the payload does not change the
    decode. *)
Theorem parse_payload_ignores_trailing_bytes
    (type_id : Z) (payload extra : list byte) :
  (∃ width, scalar_width type_id = Some width ∧ width ≤ len payload)
  ∨ (type_id = ALL ∧ 119 ≤ len payload) →
  parse_payload type_id (payload ++ extra) = parse_payload type_id payload.
Proof.
  pose proof (len_nonneg extra) as He.
  pose proof (len_app payload extra) as Happ.
  intros [(w & Hw & Hlen)|[-> Hlen]].
  - scalar_cases Hw.
    all: run_parse.
    all: rewrite ?f32_Ok by lia; rewrite ?at_Ok by lia.
    all: rewrite ?f32_at_app by lia; rewrite ?peek_app_l by lia.
    all: done.
  - rewrite !parse_payload_all_sections by lia.
    by rewrite decode_all_sections_app.
Qed.

Lemma parse_payload_ignores_trailing_bytes_witness :
  parse_payload 219 ([Byte.x01] ++ [Byte.xff; Byte.x07])
  = parse_payload 219 [Byte.x01].
Proof.
  apply parse_payload_ignores_trailing_bytes.
  left. exists 1. split; [reflexivity|unfold len; simpl; lia].
Defined.

Lemma protection_names_distinct_bool :
  forallb (λ i, forallb (λ j,
    implb (String.eqb (protection_name i) (protection_name j)) (i =? j))
    (seqZ 0 256)) (seqZ 0 256) = true.
Proof. by vm_compute. Qed.

(** The protection-state register keeps the code apart: two payloads that
    decode to the same dict have the same first byte. The label is the table
    entry for codes 0-6 and the decimal digits of the code above, and the 256
    codes a payload byte can hold get 256 different labels. *)
Theorem protection_state_labels_distinct (a b : byte) (pa pb : list byte) :
  parse_payload 220 (a :: pa) = parse_payload 220 (b :: pb) → a = b.
Proof.
  assert (∀ (x : byte) (l : list byte),
            parse_payload 220 (x :: l)
            = Ok {[ "protectionState"%string
                    := VStr (protection_name (byte_val x)) ]}) as Hp.
  { intros x l. run_parse.
    rewrite at_Ok by (rewrite len_cons; pose proof (len_nonneg l); lia).
    unfold lift. by rewrite protection_label_Ok by apply peek_range. }
  rewrite !Hp. intros Hm.
  assert (∀ d1 d2 : dict, @Ok dict d1 = Ok d2 → d1 = d2) as Hok by congruence.
  apply Hok in Hm.
  apply (f_equal (λ d : dict, d !! "protectionState"%string)) in Hm.
  cbv beta in Hm. rewrite !lookup_singleton_eq in Hm.
  assert (protection_name (byte_val a) = protection_name (byte_val b)) as Hs
    by congruence.
  apply byte_val_inj.
  pose proof protection_names_distinct_bool as Hall.
  apply forallb_Forall in Hall. rewrite Forall_seqZ in Hall.
  specialize (Hall (byte_val a) ltac:(pose proof (byte_val_range a); lia)).
  apply forallb_Forall in Hall. rewrite Forall_seqZ in Hall.
  specialize (Hall (byte_val b) ltac:(pose proof (byte_val_range b); lia)).
  simpl in Hall. rewrite Hs, String.eqb_refl in Hall. simpl in Hall.
  by apply Z.eqb_eq.
Qed.

Lemma protection_state_labels_distinct_witness :
  Byte.x01 = Byte.x01.
Proof.
  apply (protection_state_labels_distinct Byte.x01 Byte.x01 [] [Byte.x09]).
  reflexivity.
Defined.

(** ** The frame-draining loop *)

(** One pass of the loop body, in terms of the pure scan. *)
Lemma drain_body_run (buf : bytearray) (log : list dict) :
  drain_body (mkDPS150 buf log)
  = match scan buf (range 0 (len buf - 5)) with
    | None => (Ok (Return ()), mkDPS150 buf log)
    | Some (frame, consumed) =>
        let rest := drop (Z.to_nat consumed) buf in
        match parse_payload (type_id frame) (payload frame) with
        | Raise e => (Raise e, mkDPS150 rest log)
        | Ok updates =>
            (Ok Continue,
             mkDPS150 rest
               (if bool_decide (updates ≠ ∅) then updates :: log else log))
        end
    end.
Proof.
  unfold drain_body, on_rx_buf. run_M. simpl.
  rewrite try_extract_frame_run.
  destruct (scan buf (range 0 (len buf - 5))) as [[frame consumed]|] eqn:Es;
    [|done].
  apply scan_Some_inv in Es as (i & Hi & Ha & [= -> ->]).
  apply elem_of_seqZ in Hi. unfold accepts in Ha.
  apply andb_prop in Ha as [[_ Hlt%Z.ltb_lt]%andb_prop _].
  pose proof (peek_range buf (i + 3)). unfold declared in *.
  unfold del_prefix, clip. run_M. simpl.
  destruct (Z.ltb_spec (i + 5 + peek buf (i + 3)) 0); [lia|].
  rewrite Z.min_l by lia.
  destruct (parse_payload _ _) as [updates|e]; simpl; [|done].
  unfold callback. run_M. by case_bool_decide.
Qed.





Lemma scan_Some_bounds (buf : bytearray) (frame : Frame) (consumed : Z) :
  scan buf (range 0 (len buf - 5)) = Some (frame, consumed) →
  5 ≤ consumed ≤ len buf.
Proof.
  intros (i & Hi & Ha & Hf)%scan_Some_inv. apply elem_of_seqZ in Hi.
  pose proof (accepts_encode buf i ltac:(lia) Ha) as H. rewrite <- Hf in H.
  destruct H as (_ & _ & Hc & Hn & _).
  pose proof (len_nonneg (payload frame)). lia.
Qed.

Lemma drain_enough_fuel (fuel : nat) (buf : bytearray) (log : list dict) :
  (length buf < fuel)%nat →
  drain (S fuel) (mkDPS150 buf log) = drain fuel (mkDPS150 buf log)
  ∧ _rx_buf (drain fuel (mkDPS150 buf log)).2 `suffix_of` buf
  ∧ ((drain fuel (mkDPS150 buf log)).1 = Ok () →
     scan (_rx_buf (drain fuel (mkDPS150 buf log)).2)
       (range 0 (len (_rx_buf (drain fuel (mkDPS150 buf log)).2) - 5))
     = None).
Proof.
  revert buf log. induction fuel as [|fuel IH]; intros buf log Hlen; [lia|].
  assert (∀ k, drain (S k) (mkDPS150 buf log)
               = match drain_body (mkDPS150 buf log) with
                 | (Ok Continue, s) => drain k s
                 | (Ok (Return _), s) => (Ok (), s)
                 | (Raise e, s) => (Raise e, s)
                 end) as Hstep.
  { intros k. simpl. unfold mbind, M_bind.
    destruct (drain_body _) as [[[|[]]|e] s]; done. }
  rewrite !Hstep, drain_body_run.
  destruct (scan buf (range 0 (len buf - 5))) as [[frame consumed]|] eqn:Es.
  - cbv zeta. apply scan_Some_bounds in Es. unfold len in Es.
    destruct (parse_payload _ _) as [updates|e].
    + assert (length (drop (Z.to_nat consumed) buf) < fuel)%nat as Hlt
        by (rewrite length_drop; lia).
      destruct (IH _ (if bool_decide (updates ≠ ∅) then updates :: log else log)
                  Hlt) as (IH1 & IH2 & IH3).
      split; [done|]. split; [|done].
      etrans; [exact IH2|apply suffix_drop].
    + simpl. split; [done|]. split; [apply suffix_drop|done].
  - simpl. done.
Qed.

(** The [while True] loop ends: with more iterations allowed than the
    buffer has bytes, allowing one more changes nothing. What is left in
    the buffer is a suffix of what was there, and when the loop ends without
    an exception the scanner finds no frame in it. *)
Theorem drain_terminates (fuel : nat) (self : DPS150) :
  (length (_rx_buf self) < fuel)%nat →
  drain (S fuel) self = drain fuel self
  ∧ _rx_buf (drain fuel self).2 `suffix_of` _rx_buf self
  ∧ ((drain fuel self).1 = Ok () →
     try_extract_frame (_rx_buf (drain fuel self).2)
     = (Ok None, _rx_buf (drain fuel self).2)).
Proof.
  destruct self as [buf log]. simpl. intros Hlen.
  destruct (drain_enough_fuel fuel buf log Hlen) as (H1 & H2 & H3).
  split; [done|]. split; [done|].
  intros Hok. rewrite try_extract_frame_run. by rewrite H3.
Qed.

Lemma drain_terminates_witness :
  drain 16 (mkDPS150 (bad_frame ++ good_frame) [])
  = drain 15 (mkDPS150 (bad_frame ++ good_frame) [])
  ∧ _rx_buf (drain 15 (mkDPS150 (bad_frame ++ good_frame) [])).2
    `suffix_of` _rx_buf (mkDPS150 (bad_frame ++ good_frame) [])
  ∧ ((drain 15 (mkDPS150 (bad_frame ++ good_frame) [])).1 = Ok () →
     try_extract_frame
       (_rx_buf (drain 15 (mkDPS150 (bad_frame ++ good_frame) [])).2)
     = (Ok None,
        _rx_buf (drain 15 (mkDPS150 (bad_frame ++ good_frame) [])).2)).
Proof.
  apply (drain_terminates 15 (mkDPS150 (bad_frame ++ good_frame) [])).
  simpl. lia.
Defined.




(** ** The command side of [DPS150] ([dps150/device.py])

    The command methods work on the serial port and the configured baud
    rate. The port is an external object: it is represented by the chunks
    handed to its [write], latest first, and [None] stands for
    [self._ser is None]. The write lock, [flush] and the pacing sleep leave
    this state as it is; failures inside pyserial are outside the model. *)

Definition METERING_ENABLE : Z := 216.
Definition OUTPUT_ENABLE : Z := 219.
Definition MODEL_NAME : Z := 222.
Definition HARDWARE_VERSION : Z := 223.
Definition FIRMWARE_VERSION : Z := 224.

Inductive dev_exn : Type :=
| RuntimeError (msg : string)
| Protocol (e : exn).   (* an exception of a protocol function, passed on *)

Inductive outcome (A : Type) : Type :=
| Done (a : A)
| Failed (e : dev_exn).
Global Arguments Done {A} a.
Global Arguments Failed {A} e.

Record Link : Type := mkLink {
  _ser : option (list bytearray);
  baudrate : Z
}.

(** A method of the object: it returns or raises, and leaves the object in
    a new state. *)
Definition Cmd (A : Type) : Type := Link → outcome A * Link.

Global Instance Cmd_ret : MRet Cmd := λ A a self, (Done a, self).
Global Instance Cmd_bind : MBind Cmd := λ A B k m self,
  match m self with
  | (Done a, self') => k a self'
  | (Failed e, self') => (Failed e, self')
  end.

Definition _send (data : bytearray) : Cmd unit := λ self,
  match _ser self with
  | None => (Failed (RuntimeError "Serial not open"), self)
  | Some chunks => (Done (), mkLink (Some (data :: chunks)) (baudrate self))
  end.

(** [self._send(e)] for an argument expression [e] of the protocol module:
    the argument is evaluated before the call. *)
Definition send_encoded (e : result bytearray) : Cmd unit :=
  match e with
  | Raise exc => λ self, (Failed (Protocol exc), self)
  | Ok data => _send data
  end.

Definition get (type_id : Z) : Cmd unit :=
  send_encoded (encode_get type_id HEADER_OUTPUT).

Definition get_all : Cmd unit :=
  send_encoded (encode_get ALL HEADER_OUTPUT).

Definition set_byte (type_id value : Z) : Cmd unit :=
  send_encoded (encode_set_byte type_id value HEADER_OUTPUT).

Definition enable_output : Cmd unit := set_byte OUTPUT_ENABLE 1.
Definition disable_output : Cmd unit := set_byte OUTPUT_ENABLE 0.
Definition start_metering : Cmd unit := set_byte METERING_ENABLE 1.
Definition stop_metering : Cmd unit := set_byte METERING_ENABLE 0.

(** [l.index(x)]: the first position of [x], [ValueError] when absent. *)
Fixpoint index (l : list Z) (x : Z) : result Z :=
  match l with
  | [] => Raise ValueError
  | y :: rest => if y =? x then Ok 0 else i ← index rest x; Ok (1 + i)
  end.

Definition baud_table : list Z := [9600; 19200; 38400; 57600; 115200].

Definition _init_commands : Cmd unit :=
  send_encoded (encode_session true HEADER_OUTPUT);;
  rate ← (λ self, (Done (baudrate self), self)) : Cmd Z;
  send_encoded
    (idx ← (if bool_decide (rate ∈ baud_table) then index baud_table rate
            else Ok (len baud_table - 1));
     payload ← bytes [idx + 1];
     encode_frame HEADER_OUTPUT CMD_BAUD 0 payload);;
  get MODEL_NAME;;
  get HARDWARE_VERSION;;
  get FIRMWARE_VERSION;;
  get_all.

(** With the port closed every command raises [RuntimeError] and the
    object stays as it was; nothing is written. *)
Theorem commands_need_open_port (rate type_id value : Z) :
  0 ≤ type_id ≤ 255 →
  let self := mkLink None rate in
  let not_open := (Failed (RuntimeError "Serial not open"), self) in
  get type_id self = not_open
  ∧ get_all self = not_open
  ∧ set_byte type_id value self = not_open
  ∧ enable_output self = not_open ∧ disable_output self = not_open
  ∧ start_metering self = not_open ∧ stop_metering self = not_open
  ∧ _init_commands self = not_open.
Proof.
  intros Ht. cbv zeta.
  destruct (encode_get_Ok type_id HEADER_OUTPUT Ht ltac:(done))
    as (fg & Eg & _).
  destruct (encode_set_byte_Ok type_id value HEADER_OUTPUT Ht ltac:(done))
    as (b & fs & _ & Es & _).
  unfold get, set_byte. rewrite Eg, Es.
  repeat split; reflexivity.
Qed.

Lemma commands_need_open_port_witness :
  let self := mkLink None 115200 in
  let not_open := (Failed (RuntimeError "Serial not open"), self) in
  get 222 self = not_open
  ∧ get_all self = not_open
  ∧ set_byte 222 7 self = not_open
  ∧ enable_output self = not_open ∧ disable_output self = not_open
  ∧ start_metering self = not_open ∧ stop_metering self = not_open
  ∧ _init_commands self = not_open.
Proof. apply (commands_need_open_port 115200 222 7). lia. Defined.

(** The argument of [_send] is built first: a [get] or [set_byte] for a
    register outside 0-255 raises [ValueError], on an open port as on a
    closed one, and nothing is written. *)
Theorem command_with_bad_register (self : Link) (type_id value : Z) :
  ¬ (0 ≤ type_id ≤ 255) →
  get type_id self = (Failed (Protocol ValueError), self)
  ∧ set_byte type_id value self = (Failed (Protocol ValueError), self).
Proof.
  intros Ht. unfold get, set_byte, encode_get, encode_set_byte.
  change (bytes [0]) with (Ok [Byte.x00]).
  change 0xFF with (Z.ones 8). rewrite Z.land_ones by lia.
  pose proof (Z.mod_pos_bound value 256 ltac:(lia)) as Hm.
  destruct (to_byte_Ok (value `mod` 256)) as (b & Eb & Hb); [lia|].
  change (2 ^ 8) with 256. simpl. rewrite Eb. simpl.
  destruct (encode_frame_cases HEADER_OUTPUT CMD_GET type_id [Byte.x00])
    as [[(_ & _ & ? & _) _]|[_ ->]]; [done|].
  destruct (encode_frame_cases HEADER_OUTPUT CMD_SET type_id [b])
    as [[(_ & _ & ? & _) _]|[_ ->]]; [done|].
  done.
Qed.

Lemma command_with_bad_register_witness :
  get 256 (mkLink None 9600)
  = (Failed (Protocol ValueError), mkLink None 9600)
  ∧ set_byte 256 1 (mkLink None 9600)
    = (Failed (Protocol ValueError), mkLink None 9600).
Proof. apply command_with_bad_register. lia. Defined.

(** On an open port a [get] and a [set_byte] each hand exactly one chunk
    to the port, a six-byte frame that the scanner reads back as the
    request: GET with payload [[0]], SET with the value modulo 256. *)
Theorem commands_write_one_frame
    (chunks : list bytearray) (rate type_id value : Z) :
  0 ≤ type_id ≤ 255 →
  let self := mkLink (Some chunks) rate in
  ∃ fg b fs,
    get type_id self = (Done (), mkLink (Some (fg :: chunks)) rate)
    ∧ try_extract_frame fg
      = (Ok (Some (mkFrame HEADER_OUTPUT CMD_GET type_id [Byte.x00], 6)), fg)
    ∧ set_byte type_id value self
      = (Done (), mkLink (Some (fs :: chunks)) rate)
    ∧ byte_val b = value `mod` 256
    ∧ try_extract_frame fs
      = (Ok (Some (mkFrame HEADER_OUTPUT CMD_SET type_id [b], 6)), fs).
Proof.
  intros Ht. cbv zeta.
  destruct (encode_get_Ok type_id HEADER_OUTPUT Ht ltac:(done))
    as (fg & Eg & Eg').
  destruct (encode_set_byte_Ok type_id value HEADER_OUTPUT Ht ltac:(done))
    as (b & fs & Hb & Es & Es').
  exists fg, b, fs. unfold get, set_byte. rewrite Eg, Es.
  pose proof (len_encode_frame _ _ _ _ _ Eg') as Hg.
  pose proof (len_encode_frame _ _ _ _ _ Es') as Hs.
  change (len [Byte.x00]) with 1 in Hg. change (len [b]) with 1 in Hs.
  split; [done|]. split.
  { rewrite (scan_encoded_alone _ HEADER_OUTPUT CMD_GET type_id [Byte.x00]);
      [by rewrite Hg|done|done|done|done|exact Eg']. }
  split; [done|]. split; [done|].
  rewrite (scan_encoded_alone _ HEADER_OUTPUT CMD_SET type_id [b]);
    [by rewrite Hs|done|done|done|done|exact Es'].
Qed.

Lemma commands_write_one_frame_witness :
  let self := mkLink (Some []) 115200 in
  ∃ fg b fs,
    get 255 self = (Done (), mkLink (Some [fg]) 115200)
    ∧ try_extract_frame fg
      = (Ok (Some (mkFrame HEADER_OUTPUT CMD_GET 255 [Byte.x00], 6)), fg)
    ∧ set_byte 255 300 self = (Done (), mkLink (Some [fs]) 115200)
    ∧ byte_val b = 300 `mod` 256
    ∧ try_extract_frame fs
      = (Ok (Some (mkFrame HEADER_OUTPUT CMD_SET 255 [b], 6)), fs).
Proof. apply (commands_write_one_frame [] 115200 255 300). lia. Defined.

(** The baud-rate code announced to the device: the position of the
    configured rate in the table, counted from 1, and the code of 115200
    for a rate the table does not have. *)
Definition baud_code (rate : Z) : Z :=
  if rate =? 9600 then 1
  else if rate =? 19200 then 2
  else if rate =? 38400 then 3
  else if rate =? 57600 then 4
  else 5.

Definition byte_of (x : Z) : byte := default Byte.x00 (Byte.of_N (Z.to_N x)).

(** The init sequence never fails on an open port, whatever baud rate is
    configured, and writes six frames in this order: session open, the baud
    code, GET model name, GET hardware version, GET firmware version, GET
    ALL. A rate that is not in the table is announced with the code of
    115200. *)
Theorem init_commands_sequence (chunks : list bytearray) (rate : Z) :
  _init_commands (mkLink (Some chunks) rate)
  = (Done (),
     mkLink
       (Some
          ([Byte.xf1; Byte.xa1; Byte.xff; Byte.x01; Byte.x00; Byte.x00]
           :: [Byte.xf1; Byte.xa1; Byte.xe0; Byte.x01; Byte.x00; Byte.xe1]
           :: [Byte.xf1; Byte.xa1; Byte.xdf; Byte.x01; Byte.x00; Byte.xe0]
           :: [Byte.xf1; Byte.xa1; Byte.xde; Byte.x01; Byte.x00; Byte.xdf]
           :: [Byte.xf1; Byte.xb0; Byte.x00; Byte.x01;
               byte_of (baud_code rate); byte_of (baud_code rate + 1)]
           :: [Byte.xf1; Byte.xc1; Byte.x00; Byte.x01; Byte.x01; Byte.x02]
           :: chunks))
       rate).
Proof.
  unfold baud_code.
  destruct (Z.eqb_spec rate 9600) as [->|H1]; [by vm_compute|].
  destruct (Z.eqb_spec rate 19200) as [->|H2]; [by vm_compute|].
  destruct (Z.eqb_spec rate 38400) as [->|H3]; [by vm_compute|].
  destruct (Z.eqb_spec rate 57600) as [->|H4]; [by vm_compute|].
  destruct (decide (rate = 115200)) as [->|H5]; [by vm_compute|].
  unfold _init_commands, mbind, Cmd_bind. cbn beta iota.
  change (send_encoded (encode_session true HEADER_OUTPUT)
            (mkLink (Some chunks) rate))
    with (Done (), mkLink (Some ([Byte.xf1; Byte.xc1; Byte.x00; Byte.x01;
                                  Byte.x01; Byte.x02] :: chunks)) rate).
  cbn beta iota. cbn [baudrate].
  rewrite bool_decide_eq_false_2.
  2: { unfold baud_table. rewrite !not_elem_of_cons.
       repeat split; try done. apply not_elem_of_nil. }
  by vm_compute.
Qed.

(** ** The ALL block against the scalar registers *)

Lemma lookup_total_slice (p : list byte) (lo hi : Z) (i : nat) :
  0 ≤ lo → hi ≤ len p → lo + Z.of_nat i < hi →
  slice p lo hi !!! i = p !!! (Z.to_nat lo + i)%nat.
Proof.
  intros Hlo Hhi Hi. rewrite slice_inside by lia.
  by rewrite lookup_total_take_lt, lookup_total_drop by lia.
Qed.

Lemma f32_at_slice (p : list byte) (lo hi offset : Z) :
  0 ≤ lo → hi ≤ len p → 0 ≤ offset → lo + offset + 4 ≤ hi →
  f32_at (slice p lo hi) offset = f32_at p (lo + offset).
Proof.
  intros Hlo Hhi Ho H4. unfold f32_at. cbv zeta.
  rewrite !lookup_total_slice by lia.
  replace (Z.to_nat (lo + offset)) with (Z.to_nat lo + Z.to_nat offset)%nat
    by lia.
  by rewrite <- !Nat.add_succ_r.
Qed.

Lemma peek_slice (p : list byte) (lo hi : Z) :
  0 ≤ lo → hi ≤ len p → lo < hi → peek (slice p lo hi) 0 = peek p lo.
Proof.
  intros Hlo Hhi Hlt. unfold peek.
  rewrite lookup_total_slice by lia. do 2 f_equal. lia.
Qed.

(** The bytes of an ALL payload that hold what a scalar register reports:
    register, first byte, end. *)
Definition ALL_SLICES : list (Z * (Z * Z)) :=
  [ (192, (0, 4)); (195, (12, 24)); (196, (24, 28));
    (217, (99, 103)); (218, (103, 107)); (219, (107, 108));
    (220, (108, 109)); (221, (109, 110));
    (226, (111, 115)); (227, (115, 119)) ].

(** The two decoding paths agree: for an ALL payload of at least 119 bytes,
    decoding the bytes [payload[lo:hi]] as scalar register [type_id] gives
    fields that the ALL decode has too, under the same names and with the
    same values. *)
Theorem all_block_agrees_with_scalar_registers
    (type_id lo hi : Z) (payload : list byte) :
  (type_id, (lo, hi)) ∈ ALL_SLICES → 119 ≤ len payload →
  ∃ fields block,
    parse_payload type_id (slice payload lo hi) = Ok fields
    ∧ parse_payload ALL payload = Ok block
    ∧ fields ≠ ∅ ∧ fields ⊆ block.
Proof.
  intros Hin Hlen.
  assert (parse_payload ALL payload = Ok (decode_all_sections payload)) as Hall
    by (apply parse_payload_all_sections; lia).
  assert (decode_all_sections payload
          = with_items (all_limits payload)
              (with_items (all_totals payload)
                 (with_items (all_flags payload)
                    (with_items (all_core payload) ∅)))) as Hd.
  { unfold decode_all_sections. cbv zeta.
    assert ((99 <=? len payload) = true) as -> by lia.
    assert ((110 <=? len payload) = true) as -> by lia.
    by assert ((119 <=? len payload) = true) as -> by lia. }
  unfold ALL_SLICES in Hin.
  repeat (apply elem_of_cons in Hin as [[= -> -> ->]|Hin]);
    [..|by apply elem_of_nil in Hin].
  all: eexists _, (decode_all_sections payload).
  all: split;
    [run_parse;
     rewrite ?f32_Ok by (rewrite ?len_slice; lia);
     rewrite ?at_Ok by (rewrite ?len_slice; lia);
     unfold lift; rewrite ?protection_label_Ok by apply peek_range;
     reflexivity|].
  all: split; [exact Hall|]. all: split; [apply insert_non_empty|].
  all: rewrite Hd; repeat apply insert_subseteq_l;
    try apply map_empty_subseteq.
  all: rewrite ?(f32_at_slice payload _ _ 0), ?(f32_at_slice payload _ _ 4),
         ?(f32_at_slice payload _ _ 8), ?peek_slice by lia.
  all: by vm_compute.
Qed.

Lemma all_block_agrees_with_scalar_registers_witness :
  ∃ fields block,
    parse_payload 221 (slice (replicate 119 Byte.x00) 109 110) = Ok fields
    ∧ parse_payload ALL (replicate 119 Byte.x00) = Ok block
    ∧ fields ≠ ∅ ∧ fields ⊆ block.
Proof.
  apply all_block_agrees_with_scalar_registers;
    [unfold ALL_SLICES; set_solver|unfold len; simpl; lia].
Defined.

(** ** One iteration of the reader loop *)





Lemma drain_None (fuel : nat) (buf : bytearray) (log : list dict) :
  scan buf (range 0 (len buf - 5)) = None →
  drain fuel (mkDPS150 buf log) = (Ok (), mkDPS150 buf log).
Proof.
  intros Hs. destruct fuel as [|fuel]; [done|].
  simpl. unfold mbind, M_bind. by rewrite drain_body_run, Hs.
Qed.

(** Bytes the scanner cannot use are never thrown away: when the buffer
    has no header byte among the offsets the scanner looks at, the drain
    loop leaves the object as it is, however long it runs. *)
Theorem drain_keeps_noise (fuel : nat) (self : DPS150) :
  (∀ j, 0 ≤ j ≤ len (_rx_buf self) - 6 →
        is_header (peek (_rx_buf self) j) = false) →
  drain fuel self = (Ok (), self).
Proof.
  destruct self as [buf log]. simpl. intros Hno. apply drain_None.
  unfold range. rewrite <- (app_nil_r (seqZ _ _)).
  rewrite scan_app_rejects; [done|].
  apply Forall_seqZ. intros j Hj. apply rejects_no_header, Hno. lia.
Qed.

Lemma drain_keeps_noise_witness :
  drain 5 (mkDPS150 (replicate 40 Byte.x07) [])
  = (Ok (), mkDPS150 (replicate 40 Byte.x07) []).
Proof.
  apply drain_keeps_noise. cbn [_rx_buf]. intros j Hj.
  unfold len in Hj. rewrite length_replicate in Hj.
  unfold peek. rewrite lookup_total_replicate_2 by lia. reflexivity.
Defined.




